(** * PlayListory: PKCE session manager, paged fetcher and tiered cache

    A shallow embedding of the browser-side data acquisition layer of
    PlayListory:

    - [spotifyAuth.js]  (PKCE OAuth utilities, tokens in localStorage),
    - [spotifyApi.js]   (authorised requests, cursor-following fetchers,
                         assembly of the library),
    - [cacheDb.js]      (IndexedDB cache, with and without the
                         localStorage fallback tier),
    - [sanitize.js]     (projection of a track to its minimal fields).

    Browser state (localStorage, IndexedDB, the clock, the location bar,
    the network) is an explicit [World]; an [async] function is a
    computation [M A] that threads the world and ends in a returned value,
    a thrown exception, or runs out of loop fuel. *)

From Stdlib Require Import ZArith NArith String Ascii List Bool Lia.
From Stdlib Require Import Strings.Byte DecimalZ.
From Stdlib Require DecimalString HexadecimalString.
From stdpp Require Import base option gmap strings list.

Import ListNotations.
Set Warnings "-register-all".
Local Open Scope string_scope.
Local Open Scope list_scope.
Local Open Scope Z_scope.

(* ===================================================================== *)
(** ** JavaScript strings and numbers (the fragment the code uses) *)
(* ===================================================================== *)

Module JS.

(** A JS number, restricted to the integers (token lifetimes, epoch
    milliseconds, HTTP statuses) and NaN. *)
Inductive num := Num (z : Z) | NaN.

(** [String(n)] for an integer-valued number. *)
Definition String_of_Z (z : Z) : string :=
  DecimalString.NilZero.string_of_int (Z.to_int z).

Definition String_of_num (n : num) : string :=
  match n with Num z => String_of_Z z | NaN => "NaN" end.

(** [Number(s)] on decimal integer literals; every other string is NaN
    here (the code only ever parses back what [String] wrote). *)
Definition Number (s : string) : num :=
  match DecimalString.NilZero.int_of_string s with
  | Some d => Num (Z.of_int d)
  | None => NaN
  end.

(** [!n] on a number: 0 and NaN are falsy. *)
Definition num_falsy (n : num) : bool :=
  match n with Num z => Z.eqb z 0 | NaN => true end.

(** [!s] on a string: only the empty string is falsy. *)
Definition str_truthy (s : string) : bool :=
  match s with EmptyString => false | _ => true end.

(** [!v] for a value that is [null] or a string ([getItem], [get]). *)
Definition opt_truthy (o : option string) : bool :=
  match o with Some s => str_truthy s | None => false end.

(** [s.slice(-k)]: the last [k] characters. *)
Definition slice_last (k : nat) (s : string) : string :=
  let n := String.length s in
  substring (n - k) k s.

(** [s.replace(pat, by)] with a string pattern: the first occurrence. *)
Fixpoint replace_first (pat by_ s : string) : string :=
  if String.prefix pat s
  then by_ +:+ substring (String.length pat) (String.length s) s
  else match s with
       | EmptyString => EmptyString
       | String c r => String c (replace_first pat by_ r)
       end.

(** [s.replace(/c/g, d)] for a one-character pattern. *)
Fixpoint replace_all_char (c d : ascii) (s : string) : string :=
  match s with
  | EmptyString => EmptyString
  | String a r => String (if Ascii.eqb a c then d else a) (replace_all_char c d r)
  end.

(** [s.replace(/c+$/, '')]: drop the trailing run of [c]. *)
Fixpoint strip_trailing (c : ascii) (s : string) : string :=
  match s with
  | EmptyString => EmptyString
  | String a r =>
      match strip_trailing c r with
      | EmptyString => if Ascii.eqb a c then EmptyString else String a EmptyString
      | r' => String a r'
      end
  end.

(** [arr.join('')]. *)
Fixpoint join (l : list string) : string :=
  match l with
  | [] => EmptyString
  | x :: r => x +:+ join r
  end.

(** Does the character occur in the string? *)
Fixpoint occurs (c : ascii) (s : string) : bool :=
  match s with
  | EmptyString => false
  | String a r => Ascii.eqb a c || occurs c r
  end.

(** The last character, if any. *)
Fixpoint last_char (s : string) : option ascii :=
  match s with
  | EmptyString => None
  | String a EmptyString => Some a
  | String _ r => last_char r
  end.

(** JavaScript values as they come out of [JSON.parse] and object
    literals: JSON plus [undefined]. An object is its list of
    properties; a property is looked up by its first occurrence. *)
Inductive value :=
| Undefined
| Null
| Bool (b : bool)
| Number_ (z : Z)
| Str (s : string)
| Arr (items : list value)
| Obj (props : list (string * value)).

(** Truthiness: [if (v)], [!v], [v || w]. *)
Definition truthy (v : value) : bool :=
  match v with
  | Undefined | Null => false
  | Bool b => b
  | Number_ z => negb (Z.eqb z 0)
  | Str s => str_truthy s
  | Arr _ | Obj _ => true
  end.

(** [a || b]. *)
Definition or_else (a b : value) : value := if truthy a then a else b.

(** [a ?? b]. *)
Definition nullish (a b : value) : value :=
  match a with Undefined | Null => b | _ => a end.

Fixpoint lookup_prop (k : string) (props : list (string * value)) : value :=
  match props with
  | [] => Undefined
  | (k', v) :: rest => if String.eqb k' k then v else lookup_prop k rest
  end.

(** [v?.k]: the property, [undefined] on [null]/[undefined] and on
    values without own property [k]. *)
Definition opt_get (k : string) (v : value) : value :=
  match v with
  | Obj props => lookup_prop k props
  | _ => Undefined
  end.

(** [v.k]: [None] when the access throws a TypeError (on [null] and
    [undefined]). *)
Definition get (k : string) (v : value) : option value :=
  match v with
  | Undefined | Null => None
  | _ => Some (opt_get k v)
  end.

Definition join_with (sep : string) (l : list string) : string :=
  match l with
  | [] => EmptyString
  | x :: r => fold_left (fun acc y => acc +:+ sep +:+ y) r x
  end.

(** [String(v)], [`${v}`]. *)
Fixpoint ToString (v : value) : string :=
  match v with
  | Undefined => "undefined"
  | Null => "null"
  | Bool true => "true"
  | Bool false => "false"
  | Number_ z => String_of_Z z
  | Str s => s
  | Arr items =>
      join_with ","
        (List.map (fun x => match x with
                            | Undefined | Null => EmptyString
                            | _ => ToString x
                            end) items)
  | Obj _ => "[object Object]"
  end.

(** [Number(v)], the operand conversion of [*]. *)
Definition ToNumber (v : value) : num :=
  match v with
  | Undefined => NaN
  | Null => Num 0
  | Bool b => Num (if b then 1 else 0)
  | Number_ z => Num z
  | Str s => match s with EmptyString => Num 0 | _ => Number s end
  | Arr [] => Num 0
  | Arr _ => Number (ToString v)
  | Obj _ => NaN
  end.

Definition num_add (a b : num) : num :=
  match a, b with Num x, Num y => Num (x + y) | _, _ => NaN end.

Definition num_mul (a b : num) : num :=
  match a, b with Num x, Num y => Num (x * y) | _, _ => NaN end.

Definition num_sub (a b : num) : num :=
  match a, b with Num x, Num y => Num (x - y) | _, _ => NaN end.

(** [a >= b]: false as soon as one side is NaN. *)
Definition num_geb (a b : num) : bool :=
  match a, b with Num x, Num y => Z.geb x y | _, _ => false end.

(** [String(v)] for a [string | null | undefined] (a missing option,
    a [getItem] or [get] result) inside URLSearchParams. *)
Definition opt_ToString (missing : string) (o : option string) : string :=
  match o with Some s => s | None => missing end.

(** [a === b] on [string | null]. *)
Definition opt_strict_eq (a b : option string) : bool :=
  match a, b with
  | Some x, Some y => String.eqb x y
  | None, None => true
  | _, _ => false
  end.

(** A [string | null] result as a value. *)
Definition of_opt_string (o : option string) : value :=
  match o with Some s => Str s | None => Null end.

End JS.

(* ===================================================================== *)
(** ** Encoding helpers of spotifyAuth.js *)
(* ===================================================================== *)

Module Encoding.

(** The alphabet of [btoa]. *)
Definition b64_alphabet : string :=
  "ABCDEFGHIJKLMNOPQRSTUVWXYZabcdefghijklmnopqrstuvwxyz0123456789+/".

(** The URL-safe alphabet of RFC 4648, section 5. *)
Definition b64url_alphabet : string :=
  "ABCDEFGHIJKLMNOPQRSTUVWXYZabcdefghijklmnopqrstuvwxyz0123456789-_".

Definition sextet_char (alphabet : string) (i : N) : ascii :=
  match String.get (N.to_nat i) alphabet with
  | Some c => c
  | None => "="%char
  end.

Definition code (a : ascii) : N := N_of_ascii a.

(** Base64 over a binary string, by groups of three bytes, with the
    given alphabet and padding. *)
Fixpoint base64_with (alphabet : string) (pad : string) (s : string) : string :=
  match s with
  | EmptyString => EmptyString
  | String a EmptyString =>
      let n := (code a * 65536)%N in
      String (sextet_char alphabet ((n / 262144) mod 64))
        (String (sextet_char alphabet ((n / 4096) mod 64)) (pad +:+ pad))
  | String a (String b EmptyString) =>
      let n := (code a * 65536 + code b * 256)%N in
      String (sextet_char alphabet ((n / 262144) mod 64))
        (String (sextet_char alphabet ((n / 4096) mod 64))
           (String (sextet_char alphabet ((n / 64) mod 64)) pad))
  | String a (String b (String c rest)) =>
      let n := (code a * 65536 + code b * 256 + code c)%N in
      String (sextet_char alphabet ((n / 262144) mod 64))
        (String (sextet_char alphabet ((n / 4096) mod 64))
           (String (sextet_char alphabet ((n / 64) mod 64))
              (String (sextet_char alphabet (n mod 64))
                 (base64_with alphabet pad rest))))
  end.

(** [btoa]: standard base64 with [=] padding. *)
Definition btoa (s : string) : string := base64_with b64_alphabet "=" s.

(** [String.fromCharCode.apply(null, [...uint8])]. *)
Definition fromCharCodes (uint8 : list byte) : string :=
  string_of_list_byte uint8.

(** [uint8ToBase64Url]. *)
Definition uint8ToBase64Url (uint8 : list byte) : string :=
  JS.strip_trailing "="
    (JS.replace_all_char "/" "_"
       (JS.replace_all_char "+" "-" (btoa (fromCharCodes uint8)))).

(** [new TextEncoder().encode(input)] for a string of code units below
    256: UTF-8, one byte below 128 and two bytes from there on. *)
Definition utf8_char (a : ascii) : list byte :=
  let n := code a in
  if (n <? 128)%N then [byte_of_ascii a]
  else
    match Byte.of_N (192 + n / 64), Byte.of_N (128 + n mod 64) with
    | Some hi, Some lo => [hi; lo]
    | _, _ => []
    end.

Fixpoint TextEncoder_encode (s : string) : list byte :=
  match s with
  | EmptyString => []
  | String a r => utf8_char a ++ TextEncoder_encode r
  end.

(** [byte.toString(16)]. *)
Definition toString16 (b : byte) : string :=
  HexadecimalString.NilZero.string_of_uint (N.to_hex_uint (Byte.to_N b)).

(** [('0' + byte.toString(16)).slice(-2)]. *)
Definition hex2 (b : byte) : string :=
  JS.slice_last 2 ("0" +:+ toString16 b).

Section Crypto.
(** The platform's [crypto.subtle.digest('SHA-256', _)] and
    [crypto.getRandomValues]: the [i]-th byte written into the array. *)
Variable digest_SHA256 : list byte -> list byte.
Variable getRandomValues : nat -> byte.

(** [sha256Base64Url]. *)
Definition sha256Base64Url (input : string) : string :=
  let data := TextEncoder_encode input in
  let digest := digest_SHA256 data in
  uint8ToBase64Url digest.

(** [generateRandomString]. *)
Definition generateRandomString (length : nat) : string :=
  let array := List.map getRandomValues (seq 0 length) in
  JS.join (List.map hex2 array).
End Crypto.

(** The spec's [base64url]: RFC 4648 section 5, unpadded. *)
Definition base64url_spec (bytes : list byte) : string :=
  base64_with b64url_alphabet EmptyString (string_of_list_byte bytes).

End Encoding.

(* ===================================================================== *)
(** ** The browser: storage, clock, location, IndexedDB and network *)
(* ===================================================================== *)

Module Browser.

(** What a [throw] carries. *)
Inductive exn :=
| Error (message : string)        (* new Error(message) *)
| TypeError (message : string)    (* property of null, failed fetch *)
| SyntaxError (message : string)  (* JSON.parse, res.json() *)
| DOMException (name : string).   (* QuotaExceededError, IndexedDB *)

(** A URL with its query parsed ([new URL(..)], [URLSearchParams]). *)
Record Url := mkUrl {
  url_base : string;
  searchParams : list (string * string)
}.

(** A [fetch] call. *)
Record Request := mkRequest {
  req_method : string;
  req_url : string;
  req_headers : list (string * string);
  req_body : list (string * string)
}.

(** A [Response]: [res.status], [res.text()], and [res.json()], which
    is [None] when the body is not JSON. *)
Record Response := mkResponse {
  status : Z;
  text : string;
  json : option JS.value
}.

(** [res.ok]. *)
Definition ok (res : Response) : bool :=
  (200 <=? status res) && (status res <=? 299).

Inductive FetchResult :=
| Resolved (res : Response)
| Rejected.                        (* network failure *)

Record World := mkWorld {
  localStorage : gmap string string;
  ls_quota : option nat;           (* characters the origin may store *)
  clock : Z;                       (* Date.now() *)
  rng : nat -> byte;               (* the stream behind getRandomValues *)
  rng_pos : nat;
  location : Url;                  (* window.location.href *)
  assigned : option Url;           (* window.location.assign(..) *)
  idb_available : bool;            (* indexedDB.open succeeds *)
  idb_cache : gmap string JS.value;(* object store 'cache', keyPath 'key' *)
  server : list Request -> Request -> FetchResult;
  net_log : list Request;          (* requests issued so far, in order *)
  env_client_id : option string;   (* import.meta.env.VITE_SPOTIFY_CLIENT_ID *)
  env_redirect_uri : option string;(* import.meta.env.VITE_SPOTIFY_REDIRECT_URI *)
  digest_SHA256 : list byte -> list byte;   (* crypto.subtle.digest('SHA-256', _) *)
  JSON_stringify : JS.value -> string;
  JSON_parse : string -> option JS.value    (* None: SyntaxError *)
}.

Definition set_localStorage (m : gmap string string) (w : World) : World :=
  mkWorld m (ls_quota w) (clock w) (rng w) (rng_pos w) (location w)
    (assigned w) (idb_available w) (idb_cache w) (server w) (net_log w)
    (env_client_id w) (env_redirect_uri w) (digest_SHA256 w)
    (JSON_stringify w) (JSON_parse w).

Definition set_rng_pos (p : nat) (w : World) : World :=
  mkWorld (localStorage w) (ls_quota w) (clock w) (rng w) p (location w)
    (assigned w) (idb_available w) (idb_cache w) (server w) (net_log w)
    (env_client_id w) (env_redirect_uri w) (digest_SHA256 w)
    (JSON_stringify w) (JSON_parse w).

Definition set_location (u : Url) (w : World) : World :=
  mkWorld (localStorage w) (ls_quota w) (clock w) (rng w) (rng_pos w) u
    (assigned w) (idb_available w) (idb_cache w) (server w) (net_log w)
    (env_client_id w) (env_redirect_uri w) (digest_SHA256 w)
    (JSON_stringify w) (JSON_parse w).

Definition set_assigned (u : option Url) (w : World) : World :=
  mkWorld (localStorage w) (ls_quota w) (clock w) (rng w) (rng_pos w)
    (location w) u (idb_available w) (idb_cache w) (server w) (net_log w)
    (env_client_id w) (env_redirect_uri w) (digest_SHA256 w)
    (JSON_stringify w) (JSON_parse w).

Definition set_idb_cache (m : gmap string JS.value) (w : World) : World :=
  mkWorld (localStorage w) (ls_quota w) (clock w) (rng w) (rng_pos w)
    (location w) (assigned w) (idb_available w) m (server w) (net_log w)
    (env_client_id w) (env_redirect_uri w) (digest_SHA256 w)
    (JSON_stringify w) (JSON_parse w).

Definition set_net_log (l : list Request) (w : World) : World :=
  mkWorld (localStorage w) (ls_quota w) (clock w) (rng w) (rng_pos w)
    (location w) (assigned w) (idb_available w) (idb_cache w) (server w) l
    (env_client_id w) (env_redirect_uri w) (digest_SHA256 w)
    (JSON_stringify w) (JSON_parse w).

(** *** Computations *)

Inductive outcome (A : Type) :=
| Return (a : A)
| Throw (e : exn)
| OutOfFuel.
Arguments Return {A} a.
Arguments Throw {A} e.
Arguments OutOfFuel {A}.

Definition M (A : Type) : Type := World -> outcome A * World.

Definition ret {A} (a : A) : M A := fun w => (Return a, w).

Definition throw {A} (e : exn) : M A := fun w => (Throw e, w).

Definition bind {A B} (c : M A) (k : A -> M B) : M B :=
  fun w =>
    match c w with
    | (Return a, w') => k a w'
    | (Throw e, w') => (Throw e, w')
    | (OutOfFuel, w') => (OutOfFuel, w')
    end.

(** [try { c } catch { h }]: every exception is caught; running out of
    fuel is not an exception. *)
Definition try_catch {A} (c : M A) (h : exn -> M A) : M A :=
  fun w =>
    match c w with
    | (Throw e, w') => h e w'
    | r => r
    end.

(** [if (b) c]. *)
Definition when (b : bool) (c : M unit) : M unit :=
  if b then c else ret tt.

(** A property access that throws on [null] and [undefined]. *)
Definition prop (k : string) (v : JS.value) : M JS.value :=
  match JS.get k v with
  | Some x => ret x
  | None => throw (TypeError "Cannot read properties of null or undefined")
  end.

(** *** Platform calls *)

(** [Date.now()]. *)
Definition Date_now : M Z := fun w => (Return (clock w), w).

(** [localStorage.getItem(k)]. *)
Definition getItem (k : string) : M (option string) :=
  fun w => (Return (localStorage w !! k), w).

(** Characters held by the store. *)
Definition ls_used (m : gmap string string) : nat :=
  map_fold (fun k v acc => (String.length k + String.length v + acc)%nat) 0%nat m.

(** Does the store, after the write, stay within the quota? *)
Definition ls_fits (k v : string) (w : World) : bool :=
  match ls_quota w with
  | None => true
  | Some q => (ls_used (<[k := v]> (localStorage w)) <=? q)%nat
  end.

(** [localStorage.setItem(k, v)]: throws QuotaExceededError when the
    value does not fit. *)
Definition setItem (k v : string) : M unit :=
  fun w =>
    if ls_fits k v w
    then (Return tt, set_localStorage (<[k := v]> (localStorage w)) w)
    else (Throw (DOMException "QuotaExceededError"), w).

(** [localStorage.removeItem(k)]. *)
Definition removeItem (k : string) : M unit :=
  fun w => (Return tt, set_localStorage (delete k (localStorage w)) w).

(** [fetch(url, init)]: the request is logged, the server answers from
    what it has seen so far. *)
Definition fetch (rq : Request) : M Response :=
  fun w =>
    let w' := set_net_log (net_log w ++ [rq]) w in
    match server w (net_log w) rq with
    | Resolved res => (Return res, w')
    | Rejected => (Throw (TypeError "Failed to fetch"), w')
    end.

(** [res.json()]. *)
Definition res_json (res : Response) : M JS.value :=
  match json res with
  | Some v => ret v
  | None => throw (SyntaxError "Unexpected token")
  end.

(** [res.text()]. *)
Definition res_text (res : Response) : M string := ret (text res).

(** [params.get(k)]: the first value of the name, or [null]. *)
Fixpoint params_get (k : string) (ps : list (string * string)) : option string :=
  match ps with
  | [] => None
  | (k', v) :: rest => if String.eqb k' k then Some v else params_get k rest
  end.

(** [params.delete(k)]: every pair of that name goes. *)
Definition params_delete (k : string) (ps : list (string * string))
  : list (string * string) :=
  List.filter (fun kv => negb (String.eqb (fst kv) k)) ps.

(** [window.location.origin + window.location.pathname]. *)
Definition getBaseUrl (w : World) : string := url_base (location w).

End Browser.

Declare Scope js_scope.
Delimit Scope js_scope with js.
Notation "'let!' x ':=' c 'in' k" :=
  (Browser.bind c (fun x => k))
  (at level 10, x name, c at level 100, k at level 200) : js_scope.
Notation "'run!' c 'in' k" :=
  (Browser.bind c (fun _ => k))
  (at level 10, c at level 100, k at level 200) : js_scope.

(* ===================================================================== *)
(** ** spotifyAuth.js *)
(* ===================================================================== *)

Module SpotifyAuth.
Import Browser.
Local Open Scope js_scope.

Module LS_KEYS.
Definition codeVerifier : string := "spotify_pkce_code_verifier".
Definition state : string := "spotify_oauth_state".
Definition token : string := "spotify_access_token".
Definition tokenExpiry : string := "spotify_access_token_expiry".
Definition refreshToken : string := "spotify_refresh_token".
(** [Object.values(LS_KEYS)]. *)
Definition values : list string :=
  [codeVerifier; state; token; tokenExpiry; refreshToken].
End LS_KEYS.

Definition TOKEN_ENDPOINT : string := "https://accounts.spotify.com/api/token".
Definition AUTHORIZE_ENDPOINT : string := "https://accounts.spotify.com/authorize".

(** The [options] argument; [None] is a property left undefined. *)
Record Options := mkOptions {
  opt_clientId : option string;
  opt_scopes : option string;
  opt_redirectUri : option string
}.

Definition no_options : Options := mkOptions None None None.

(** [clientId = import.meta.env.VITE_SPOTIFY_CLIENT_ID]: the default
    applies to a property left undefined. *)
Definition effective_clientId (options : Options) (w : World) : option string :=
  match opt_clientId options with
  | Some c => Some c
  | None => env_client_id w
  end.

Definition default_clientId (options : Options) : M (option string) :=
  fun w => (Return (effective_clientId options w), w).

(** [redirectUri = import.meta.env.VITE_SPOTIFY_REDIRECT_URI || getBaseUrl()]. *)
Definition effective_redirectUri (options : Options) (w : World) : string :=
  match opt_redirectUri options with
  | Some r => r
  | None =>
      match env_redirect_uri w with
      | Some r => if JS.str_truthy r then r else getBaseUrl w
      | None => getBaseUrl w
      end
  end.

Definition default_redirectUri (options : Options) : M string :=
  fun w => (Return (effective_redirectUri options w), w).

Definition default_scopes (options : Options) : string :=
  match opt_scopes options with
  | Some s => s
  | None => "playlist-read-private playlist-read-collaborative user-library-read"
  end.

(** [generateRandomString]: the array is filled from the random stream. *)
Definition generateRandomString (length : nat) : M string :=
  fun w =>
    (Return (Encoding.generateRandomString
               (fun i => rng w (rng_pos w + i)%nat) length),
     set_rng_pos (rng_pos w + length)%nat w).

(** [sha256Base64Url]. *)
Definition sha256Base64Url (input : string) : M string :=
  fun w => (Return (Encoding.sha256Base64Url (digest_SHA256 w) input), w).

Definition getStoredAccessToken : M (option string) :=
  let! token := getItem LS_KEYS.token in
  let! raw := getItem LS_KEYS.tokenExpiry in
  let expiry := if JS.opt_truthy raw
                then JS.Number (JS.opt_ToString "null" raw)
                else JS.Num 0 in
  if negb (JS.opt_truthy token) || JS.num_falsy expiry then ret None
  else
    let! now := Date_now in
    if JS.num_geb (JS.Num now) (JS.num_sub expiry (JS.Num 30000))
    then ret None
    else ret token.

Definition hasRefreshToken : M bool :=
  let! r := getItem LS_KEYS.refreshToken in
  ret (JS.opt_truthy r).

Fixpoint remove_all (keys : list string) : M unit :=
  match keys with
  | [] => ret tt
  | k :: rest => run! removeItem k in remove_all rest
  end.

Definition clearTokens : M unit := remove_all LS_KEYS.values.

Definition storeTokenResponse (json : JS.value) : M unit :=
  let! now := Date_now in
  let! access_token := prop "access_token" json in
  run! when (JS.truthy access_token)
         (setItem LS_KEYS.token (JS.ToString access_token)) in
  let! expires_in := prop "expires_in" json in
  run! when (JS.truthy expires_in)
         (setItem LS_KEYS.tokenExpiry
            (JS.String_of_num
               (JS.num_add (JS.Num now)
                  (JS.num_mul (JS.ToNumber expires_in) (JS.Num 1000))))) in
  let! refresh_token := prop "refresh_token" json in
  when (JS.truthy refresh_token)
    (setItem LS_KEYS.refreshToken (JS.ToString refresh_token)).

Definition token_request (body : list (string * string)) : Request :=
  mkRequest "POST" TOKEN_ENDPOINT
    [("Content-Type", "application/x-www-form-urlencoded")] body.

Definition exchangeCodeForToken (code : option string)
    (clientId : option string) (redirectUri : string) : M unit :=
  let! codeVerifier := getItem LS_KEYS.codeVerifier in
  if negb (JS.opt_truthy codeVerifier)
  then throw (Error "Missing PKCE code_verifier")
  else
    let body :=
      [("grant_type", "authorization_code");
       ("code", JS.opt_ToString "null" code);
       ("redirect_uri", redirectUri);
       ("client_id", JS.opt_ToString "undefined" clientId);
       ("code_verifier", JS.opt_ToString "null" codeVerifier)] in
    let! res := fetch (token_request body) in
    if negb (ok res) then throw (Error "Token exchange failed")
    else
      let! json := res_json res in
      storeTokenResponse json.

Definition refresh_request (refreshToken clientId : option string) : Request :=
  token_request
    [("grant_type", "refresh_token");
     ("refresh_token", JS.opt_ToString "null" refreshToken);
     ("client_id", JS.opt_ToString "undefined" clientId)].

Definition refreshAccessToken (clientId : option string) : M JS.value :=
  let! refreshToken := getItem LS_KEYS.refreshToken in
  if negb (JS.opt_truthy refreshToken) then ret JS.Null
  else
    let! res := fetch (refresh_request refreshToken clientId) in
    if negb (ok res) then ret JS.Null
    else
      let! json := res_json res in
      run! storeTokenResponse json in
      let! access_token := prop "access_token" json in
      ret (JS.or_else access_token JS.Null).

(** [window.history.replaceState({}, document.title, url.toString())]. *)
Definition history_replaceState (url : Url) : M unit :=
  fun w => (Return tt, set_location url w).

(** [window.location.assign(url)]. *)
Definition location_assign (url : Url) : M unit :=
  fun w => (Return tt, set_assigned (Some url) w).

Definition handleRedirectCallback (options : Options) : M bool :=
  let! clientId := default_clientId options in
  let! redirectUri := default_redirectUri options in
  let! url := (fun w => (Return (location w), w)) in
  let code := params_get "code" (searchParams url) in
  let state := params_get "state" (searchParams url) in
  let! storedState := getItem LS_KEYS.state in
  if negb (JS.opt_truthy code) then ret false
  else if negb (JS.opt_truthy state) || negb (JS.opt_strict_eq state storedState)
  then throw (Error "State mismatch")
  else
    run! exchangeCodeForToken code clientId redirectUri in
    let url :=
      mkUrl (url_base url)
        (params_delete "iss"
           (params_delete "state"
              (params_delete "code" (searchParams url)))) in
    run! history_replaceState url in
    ret true.

Definition getValidAccessToken (options : Options) : M JS.value :=
  let! clientId := default_clientId options in
  let! token := getStoredAccessToken in
  if JS.opt_truthy token then ret (JS.of_opt_string token)
  else
    let! refreshed := refreshAccessToken clientId in
    ret refreshed.

Definition beginLogin (options : Options) : M unit :=
  let! clientId := default_clientId options in
  let scopes := default_scopes options in
  let! redirectUri := default_redirectUri options in
  if negb (JS.opt_truthy clientId)
  then throw (Error "Missing VITE_SPOTIFY_CLIENT_ID")
  else
    let! codeVerifier := generateRandomString 64 in
    let! codeChallenge := sha256Base64Url codeVerifier in
    let! state := generateRandomString 16 in
    run! setItem LS_KEYS.codeVerifier codeVerifier in
    run! setItem LS_KEYS.state state in
    let params :=
      [("response_type", "code");
       ("client_id", JS.opt_ToString "undefined" clientId);
       ("scope", scopes);
       ("redirect_uri", redirectUri);
       ("code_challenge_method", "S256");
       ("code_challenge", codeChallenge);
       ("state", state)] in
    location_assign (mkUrl AUTHORIZE_ENDPOINT params).

End SpotifyAuth.

(* ===================================================================== *)
(** ** sanitize.js *)
(* ===================================================================== *)

Module Sanitize.

Definition is_string (v : JS.value) : bool :=
  match v with JS.Str _ => true | _ => false end.

(** [typeof a === 'string' ? a : a?.name]. *)
Definition artist_name (a : JS.value) : JS.value :=
  if is_string a then a else JS.opt_get "name" a.

Definition sanitizeTrack (item : JS.value) : JS.value :=
  let track := JS.or_else (JS.or_else (JS.opt_get "track" item) item) (JS.Obj []) in
  let rawArtists :=
    JS.or_else (JS.or_else (JS.opt_get "artists" track) (JS.opt_get "artist" track))
      (JS.Arr []) in
  let artists :=
    match rawArtists with
    | JS.Arr l => List.filter JS.truthy (List.map artist_name l)
    | _ => List.filter JS.truthy [artist_name rawArtists]
    end in
  JS.Obj
    [("name",
       JS.or_else
         (JS.or_else
            (JS.or_else (JS.opt_get "name" track) (JS.opt_get "title" item))
            (JS.opt_get "name" item))
         (JS.Str "Unknown"));
     ("artists", JS.Arr artists);
     ("album",
       if is_string (JS.opt_get "album" track) then JS.opt_get "album" track
       else JS.nullish (JS.opt_get "name" (JS.opt_get "album" track)) JS.Null);
     ("added_at",
       JS.or_else
         (JS.or_else
            (JS.or_else (JS.opt_get "added_at" item) (JS.opt_get "addedAt" item))
            (JS.opt_get "added_at" track))
         JS.Null);
     ("uri",
       JS.or_else (JS.or_else (JS.opt_get "uri" track) (JS.opt_get "uri" item))
         JS.Null);
     ("duration_ms",
       JS.or_else
         (JS.or_else (JS.opt_get "duration_ms" track) (JS.opt_get "duration_ms" item))
         JS.Null)].

(** The entry that [sanitizePlaylistsForStorage] builds for a playlist. *)
Definition storage_playlist (p : JS.value) : JS.value :=
  let raw_owner := JS.opt_get "owner" (JS.opt_get "raw" p) in
  JS.Obj
    [("id", JS.or_else (JS.opt_get "id" p) JS.Null);
     ("name", JS.or_else (JS.opt_get "name" p) (JS.Str "Untitled playlist"));
     ("owner",
       JS.or_else
         (JS.or_else
            (JS.or_else (JS.opt_get "owner" p) (JS.opt_get "user" p))
            (JS.or_else
               (JS.or_else (JS.opt_get "display_name" raw_owner)
                  (JS.opt_get "id" raw_owner))
               JS.Null))
         JS.Null);
     ("tracks",
       match JS.opt_get "tracks" p with
       | JS.Arr l => JS.Arr (List.map sanitizeTrack l)
       | _ => JS.Arr []
       end)].

Definition sanitizePlaylistsForStorage (playlists : JS.value) : JS.value :=
  match playlists with
  | JS.Arr l => JS.Arr (List.map storage_playlist l)
  | _ => JS.Arr []
  end.

End Sanitize.

(* ===================================================================== *)
(** ** spotifyApi.js *)
(* ===================================================================== *)

Module SpotifyApi.
Import Browser.
Local Open Scope js_scope.

Definition API_BASE : string := "https://api.spotify.com/v1".

(** The [options] of [apiFetch]: what [...options] and
    [...(options.headers || {})] contribute to the request. In the list of
    headers a later entry stands for an override of an earlier one of the
    same name. *)
Record FetchOptions := mkFetchOptions {
  fo_method : option string;
  fo_headers : list (string * string)
}.

Definition no_fetch_options : FetchOptions := mkFetchOptions None [].

Definition api_request (token : JS.value) (path : string)
    (options : FetchOptions) : Request :=
  mkRequest
    (match fo_method options with Some m => m | None => "GET" end)
    (API_BASE +:+ path)
    ([("Authorization", "Bearer " +:+ JS.ToString token);
      ("Content-Type", "application/json")] ++ fo_headers options)
    [].

Definition apiFetch (path : string) (options : FetchOptions) : M JS.value :=
  let! token := SpotifyAuth.getValidAccessToken SpotifyAuth.no_options in
  if negb (JS.truthy token) then throw (Error "Not authenticated with Spotify")
  else
    let! res := fetch (api_request token path options) in
    if status res =? 401 then throw (Error "Unauthorized")
    else if negb (ok res) then
      let! text := res_text res in
      throw (Error ("Spotify API error " +:+ JS.String_of_Z (status res)
                    +:+ ": " +:+ text))
    else res_json res.

Definition getCurrentUserProfile : M JS.value :=
  apiFetch "/me" no_fetch_options.

(** [url.replace(API_BASE, '')] on the loop variable: only a string has
    a [replace] method. *)
Definition url_path (url : JS.value) : M string :=
  match url with
  | JS.Str s => ret (JS.replace_first API_BASE "" s)
  | _ => throw (TypeError "url.replace is not a function")
  end.

Fixpoint chars (s : string) : list JS.value :=
  match s with
  | EmptyString => []
  | String a r => JS.Str (String a EmptyString) :: chars r
  end.

(** [...(v)]: arrays and strings are iterable. *)
Definition spread (v : JS.value) : M (list JS.value) :=
  match v with
  | JS.Arr l => ret l
  | JS.Str s => ret (chars s)
  | _ => throw (TypeError "not iterable")
  end.

(** [(v).map(f)]: only an array has a [map] method. *)
Definition array_map (f : JS.value -> JS.value) (v : JS.value) : M (list JS.value) :=
  match v with
  | JS.Arr l => ret (List.map f l)
  | _ => throw (TypeError "map is not a function")
  end.

(** The [while (url)] loop of [getAllCurrentUserPlaylists]. *)
Fixpoint playlists_loop (fuel : nat) (url : JS.value) (all : list JS.value)
  : M (list JS.value) :=
  if negb (JS.truthy url) then ret all
  else
    match fuel with
    | O => fun w => (OutOfFuel, w)
    | S fuel' =>
        let! path := url_path url in
        let! page := apiFetch path no_fetch_options in
        let! items := prop "items" page in
        let! more := spread (JS.or_else items (JS.Arr [])) in
        let! next := prop "next" page in
        playlists_loop fuel' next (all ++ more)
    end.

Definition getAllCurrentUserPlaylists (fuel : nat) : M (list JS.value) :=
  let limit := 50 in
  playlists_loop fuel
    (JS.Str ("/me/playlists?limit=" +:+ JS.String_of_Z limit)) [].

(** The [while (url)] loop shared by [getAllSavedTracks] and
    [getAllPlaylistTracks]. *)
Fixpoint tracks_loop (fuel : nat) (url : JS.value) (all : list JS.value)
  : M (list JS.value) :=
  if negb (JS.truthy url) then ret all
  else
    match fuel with
    | O => fun w => (OutOfFuel, w)
    | S fuel' =>
        let! path := url_path url in
        let! page := apiFetch path no_fetch_options in
        let! raw := prop "items" page in
        let! items := array_map Sanitize.sanitizeTrack (JS.or_else raw (JS.Arr [])) in
        let! next := prop "next" page in
        tracks_loop fuel' next (all ++ items)
    end.

Definition getAllSavedTracks (fuel : nat) : M (list JS.value) :=
  let limit := 50 in
  tracks_loop fuel (JS.Str ("/me/tracks?limit=" +:+ JS.String_of_Z limit)) [].

Definition unreserved (a : ascii) : bool :=
  let n := N_of_ascii a in
  ((65 <=? n) && (n <=? 90) || (97 <=? n) && (n <=? 122)
   || (48 <=? n) && (n <=? 57))%N
  || JS.occurs a "-_.!~*'()".

Definition HEX (n : N) : ascii :=
  match String.get (N.to_nat n) "0123456789ABCDEF" with
  | Some c => c
  | None => "0"%char
  end.

Definition percent (b : byte) : string :=
  let n := Byte.to_N b in
  String "%" (String (HEX (n / 16)) (String (HEX (n mod 16)) EmptyString)).

(** [encodeURIComponent] on code units below 256. *)
Fixpoint encodeURIComponent (s : string) : string :=
  match s with
  | EmptyString => EmptyString
  | String a r =>
      (if unreserved a then String a EmptyString
       else JS.join (List.map percent (Encoding.utf8_char a)))
      +:+ encodeURIComponent r
  end.

Definition playlist_tracks_url (playlistId : JS.value) : string :=
  let limit := 100 in
  "/playlists/" +:+ encodeURIComponent (JS.ToString playlistId)
    +:+ "/tracks?limit=" +:+ JS.String_of_Z limit.

Definition getAllPlaylistTracks (fuel : nat) (playlistId : JS.value)
  : M (list JS.value) :=
  tracks_loop fuel (JS.Str (playlist_tracks_url playlistId)) [].

Definition LIKED_ID : string := "liked-songs-virtual".

(** The virtual playlist pushed after a successful liked-songs fetch;
    its name is 'liked songs' followed by a star, here in UTF-8. *)
Definition liked_playlist (liked : list JS.value) : JS.value :=
  JS.Obj
    [("id", JS.Str LIKED_ID);
     ("name", JS.Str ("liked songs " +:+
                      String "226" (String "173" (String "144" EmptyString))));
     ("owner", JS.Null);
     ("tracks", JS.Arr liked);
     ("raw", JS.Obj [("type", JS.Str "virtual"); ("source", JS.Str "liked_songs")])].

(** The entry pushed for a named playlist [p] with its tracks. *)
Definition named_playlist (p : JS.value) (tracks : list JS.value) : JS.value :=
  let owner := JS.opt_get "owner" p in
  JS.Obj
    [("id", JS.opt_get "id" p);
     ("name", JS.opt_get "name" p);
     ("owner",
       JS.or_else
         (JS.or_else (JS.opt_get "display_name" owner) (JS.opt_get "id" owner))
         JS.Null);
     ("tracks", JS.Arr tracks);
     ("raw",
       JS.Obj
         [("owner",
            if JS.truthy owner
            then JS.Obj
                   [("id", JS.or_else (JS.opt_get "id" owner) JS.Null);
                    ("display_name",
                      JS.or_else (JS.opt_get "display_name" owner) JS.Null)]
            else JS.Undefined)])].

(** The [for (const p of playlists)] loop. *)
Fixpoint named_loop (fuel : nat) (playlists : list JS.value)
    (result : list JS.value) : M (list JS.value) :=
  match playlists with
  | [] => ret result
  | p :: rest =>
      let! id := prop "id" p in
      let! tracks := getAllPlaylistTracks fuel id in
      named_loop fuel rest (result ++ [named_playlist p tracks])
  end.

(** The [try { ... result.push(liked songs) } catch (e) { }] statement. *)
Definition push_liked (fuel : nat) (result : list JS.value) : M (list JS.value) :=
  try_catch
    (let! liked := getAllSavedTracks fuel in
     ret (result ++ [liked_playlist liked]))
    (fun e => ret result).

Definition getPlaylistsWithTracks (fuel : nat) : M (list JS.value) :=
  let! playlists := getAllCurrentUserPlaylists fuel in
  let result : list JS.value := [] in
  let! result := push_liked fuel result in
  named_loop fuel playlists result.

End SpotifyApi.

(* ===================================================================== *)
(** ** cacheDb.js *)
(* ===================================================================== *)

(** The IndexedDB helper that both copies of cacheDb.js start with. *)
Module IndexedDb.
Import Browser.
Local Open Scope js_scope.

(** [openDb]: rejects with [req.error] when the database cannot be
    opened. *)
Definition openDb : M unit :=
  fun w =>
    if idb_available w then (Return tt, w)
    else (Throw (DOMException "UnknownError"), w).

(** [request.result] of a [get]: [undefined] when the key is not there. *)
Definition get_result (w : World) (key : string) : JS.value :=
  match idb_cache w !! key with
  | Some record => record
  | None => JS.Undefined
  end.

(** [getRecord]: [request.result || null]. *)
Definition getRecord (key : string) : M JS.value :=
  run! openDb in
  fun w => (Return (JS.or_else (get_result w key) JS.Null), w).

(** [putRecord]: the store's key path is ['key']. *)
Definition putRecord (record : JS.value) : M unit :=
  run! openDb in
  match JS.opt_get "key" record with
  | JS.Str k =>
      fun w => (Return tt, set_idb_cache (<[k := record]> (idb_cache w)) w)
  | _ => throw (DOMException "DataError")
  end.

(** [clearAll]. *)
Definition clearAll : M unit :=
  run! openDb in
  fun w => (Return tt, set_idb_cache ∅ w).

Definition PLAYLISTS_KEY : string := "playlistsWithTracks".

(** The record built by [savePlaylistsCache]; [user] is [null] when the
    argument is left out. *)
Definition make_record (playlists user : JS.value) (now : Z) : JS.value :=
  JS.Obj
    [("key", JS.Str PLAYLISTS_KEY);
     ("data", playlists);
     ("user",
       if JS.truthy user
       then JS.Obj
              [("id", JS.or_else (JS.opt_get "id" user) JS.Null);
               ("display_name",
                 JS.or_else (JS.opt_get "display_name" user) JS.Null)]
       else JS.Null);
     ("createdAt", JS.Number_ now)].

(** What [loadPlaylistsCache] returns for a record of the primary store. *)
Definition loaded_of_record (record : JS.value) : JS.value :=
  JS.Obj
    [("playlists", JS.opt_get "data" record);
     ("user", JS.or_else (JS.opt_get "user" record) JS.Null);
     ("createdAt", JS.opt_get "createdAt" record)].

End IndexedDb.

(** cacheDb.js with the localStorage fallback tier. *)
Module CacheDb.
Import Browser IndexedDb.
Local Open Scope js_scope.

Definition BACKUP_KEY : string := "playlistory_cache_backup_v1".

Definition make_backup (record : JS.value) : JS.value :=
  JS.Obj
    [("data", JS.opt_get "data" record);
     ("user", JS.or_else (JS.opt_get "user" record) JS.Null);
     ("createdAt", JS.opt_get "createdAt" record)].

(** [JSON.stringify(v)]. *)
Definition stringify (v : JS.value) : M string :=
  fun w => (Return (JSON_stringify w v), w).

(** [JSON.parse(s)]. *)
Definition parse (s : string) : M JS.value :=
  fun w =>
    match JSON_parse w s with
    | Some v => (Return v, w)
    | None => (Throw (SyntaxError "Unexpected token"), w)
    end.

Definition savePlaylistsCache (playlists user : JS.value) : M JS.value :=
  let! now := Date_now in
  let record := make_record playlists user now in
  run! putRecord record in
  run! try_catch
         (let backup := make_backup record in
          let! s := stringify backup in
          setItem BACKUP_KEY s)
         (fun _ => ret tt) in
  ret (JS.Obj [("createdAt", JS.opt_get "createdAt" record)]).

(** What the fallback branch returns for a parsed backup. *)
Definition loaded_of_backup (parsed : JS.value) : JS.value :=
  JS.Obj
    [("playlists", JS.opt_get "data" parsed);
     ("user", JS.or_else (JS.opt_get "user" parsed) JS.Null);
     ("createdAt", JS.or_else (JS.opt_get "createdAt" parsed) JS.Null)].

Definition loadPlaylistsCache : M JS.value :=
  let! record := getRecord PLAYLISTS_KEY in
  if JS.truthy record then ret (loaded_of_record record)
  else
    (* the try block yields [Some r] where it returns [r] *)
    let! found :=
      try_catch
        (let! raw := getItem BACKUP_KEY in
         if JS.opt_truthy raw then
           let! parsed := parse (JS.opt_ToString "null" raw) in
           if JS.truthy parsed && JS.truthy (JS.opt_get "data" parsed)
           then ret (Some (loaded_of_backup parsed))
           else ret None
         else ret None)
        (fun _ => ret None) in
    match found with
    | Some r => ret r
    | None => ret JS.Null
    end.

Definition purgeCache : M unit :=
  run! clearAll in
  try_catch (removeItem BACKUP_KEY) (fun _ => ret tt).

End CacheDb.

(** cacheDb.js as src/cacheDb.js has it: the primary store alone. *)
Module CacheDbPrimary.
Import Browser IndexedDb.
Local Open Scope js_scope.

Definition savePlaylistsCache (playlists user : JS.value) : M JS.value :=
  let! now := Date_now in
  let record := make_record playlists user now in
  run! putRecord record in
  ret (JS.Obj [("createdAt", JS.opt_get "createdAt" record)]).

Definition loadPlaylistsCache : M JS.value :=
  let! record := getRecord PLAYLISTS_KEY in
  if negb (JS.truthy record) then ret JS.Null
  else ret (loaded_of_record record).

Definition purgeCache : M unit := clearAll.

End CacheDbPrimary.

(* ===================================================================== *)
(** ** A small JSON codec

    [JSON.stringify] and [JSON.parse] are the platform's, and the world
    carries them as [JSON_stringify] and [JSON_parse]. The codec below is
    the one the example worlds run with: integers, strings of code units
    below 256, arrays and objects. *)
(* ===================================================================== *)

Module Json.

Definition quote_char : ascii := "034"%char.
Definition backslash : ascii := "092"%char.

Definition hex_digit (n : N) : ascii :=
  match String.get (N.to_nat n) "0123456789abcdef" with
  | Some c => c
  | None => "0"%char
  end.

Definition escape_char (a : ascii) : string :=
  if Ascii.eqb a quote_char then String backslash (String quote_char EmptyString)
  else if Ascii.eqb a backslash then String backslash (String backslash EmptyString)
  else if (N_of_ascii a <? 32)%N
  then String backslash
         ("u00" +:+ String (hex_digit (N_of_ascii a / 16))
                     (String (hex_digit (N_of_ascii a mod 16)) EmptyString))
  else String a EmptyString.

Fixpoint escape (s : string) : string :=
  match s with
  | EmptyString => EmptyString
  | String a r => escape_char a +:+ escape r
  end.

Definition quote (s : string) : string :=
  String quote_char (escape s +:+ String quote_char EmptyString).

(** A value inside an array or object. *)
Fixpoint stringify_in (v : JS.value) : string :=
  match v with
  | JS.Undefined | JS.Null => "null"
  | JS.Bool true => "true"
  | JS.Bool false => "false"
  | JS.Number_ z => JS.String_of_Z z
  | JS.Str s => quote s
  | JS.Arr items => "[" +:+ JS.join_with "," (List.map stringify_in items) +:+ "]"
  | JS.Obj props =>
      let member :=
        fix member (ps : list (string * JS.value)) : list string :=
          match ps with
          | [] => []
          | (_, JS.Undefined) :: rest => member rest
          | (k, x) :: rest => (quote k +:+ ":" +:+ stringify_in x) :: member rest
          end in
      "{" +:+ JS.join_with "," (member props) +:+ "}"
  end.

(** [JSON.stringify(v)]; of [undefined] it is [undefined]. *)
Definition stringify (v : JS.value) : string :=
  match v with
  | JS.Undefined => "undefined"
  | _ => stringify_in v
  end.

Definition is_ws (a : ascii) : bool :=
  Ascii.eqb a " " || Ascii.eqb a "009" || Ascii.eqb a "010" || Ascii.eqb a "013".

Fixpoint skip_ws (s : string) : string :=
  match s with
  | String a r => if is_ws a then skip_ws r else s
  | EmptyString => EmptyString
  end.

Definition is_digit (a : ascii) : bool :=
  (48 <=? N_of_ascii a)%N && (N_of_ascii a <=? 57)%N.

(** The longest run of digits at the head, and the rest. *)
Fixpoint digits (s : string) : string * string :=
  match s with
  | String a r =>
      if is_digit a then let (d, rest) := digits r in (String a d, rest)
      else (EmptyString, s)
  | EmptyString => (EmptyString, EmptyString)
  end.

Definition hex_value (a : ascii) : option N :=
  let n := N_of_ascii a in
  if is_digit a then Some (n - 48)%N
  else if ((97 <=? n) && (n <=? 102))%N then Some (n - 87)%N
  else if ((65 <=? n) && (n <=? 70))%N then Some (n - 55)%N
  else None.

(** The body of a string literal, after its opening quote. *)
Fixpoint parse_string (s : string) : option (string * string) :=
  match s with
  | EmptyString => None
  | String a r =>
      if Ascii.eqb a quote_char then Some (EmptyString, r)
      else if Ascii.eqb a backslash then
        match r with
        | String "u" (String "0" (String "0" (String h (String l r')))) =>
            match hex_value h, hex_value l, parse_string r' with
            | Some x, Some y, Some (str, rest) =>
                Some (String (ascii_of_N (16 * x + y)) str, rest)
            | _, _, _ => None
            end
        | String e r' =>
            let plain :=
              if Ascii.eqb e "n" then Some "010"%char
              else if Ascii.eqb e "t" then Some "009"%char
              else if Ascii.eqb e "r" then Some "013"%char
              else if Ascii.eqb e "b" then Some "008"%char
              else if Ascii.eqb e "f" then Some "012"%char
              else if Ascii.eqb e quote_char || Ascii.eqb e backslash
                      || Ascii.eqb e "/" then Some e
              else None in
            match plain, parse_string r' with
            | Some c, Some (str, rest) => Some (String c str, rest)
            | _, _ => None
            end
        | EmptyString => None
        end
      else
        match parse_string r with
        | Some (str, rest) => Some (String a str, rest)
        | None => None
        end
  end.

Definition literal (word : string) (v : JS.value) (s : string)
  : option (JS.value * string) :=
  if String.prefix word s
  then Some (v, substring (String.length word) (String.length s) s)
  else None.

Definition parse_number (s : string) : option (JS.value * string) :=
  let (sign, body) :=
    match s with
    | String "-" r => ("-", r)
    | _ => (EmptyString, s)
    end in
  let (d, rest) := digits body in
  match JS.Number (sign +:+ d) with
  | JS.Num z => Some (JS.Number_ z, rest)
  | JS.NaN => None
  end.

Fixpoint parse_value (fuel : nat) (s : string) : option (JS.value * string) :=
  match fuel with
  | O => None
  | S fuel' =>
      match skip_ws s with
      | EmptyString => None
      | String a r as s' =>
          if Ascii.eqb a "n" then literal "null" JS.Null s'
          else if Ascii.eqb a "t" then literal "true" (JS.Bool true) s'
          else if Ascii.eqb a "f" then literal "false" (JS.Bool false) s'
          else if Ascii.eqb a quote_char then
            match parse_string r with
            | Some (str, rest) => Some (JS.Str str, rest)
            | None => None
            end
          else if Ascii.eqb a "[" then
            match skip_ws r with
            | String "]" rest => Some (JS.Arr [], rest)
            | _ =>
                match parse_elements fuel' r with
                | Some (items, rest) => Some (JS.Arr items, rest)
                | None => None
                end
            end
          else if Ascii.eqb a "{" then
            match skip_ws r with
            | String "}" rest => Some (JS.Obj [], rest)
            | _ =>
                match parse_members fuel' r with
                | Some (props, rest) => Some (JS.Obj props, rest)
                | None => None
                end
            end
          else parse_number s'
      end
  end
with parse_elements (fuel : nat) (s : string)
  : option (list JS.value * string) :=
  match fuel with
  | O => None
  | S fuel' =>
      match parse_value fuel' s with
      | Some (v, r) =>
          match skip_ws r with
          | String "," r' =>
              match parse_elements fuel' r' with
              | Some (items, rest) => Some (v :: items, rest)
              | None => None
              end
          | String "]" rest => Some ([v], rest)
          | _ => None
          end
      | None => None
      end
  end
with parse_members (fuel : nat) (s : string)
  : option (list (string * JS.value) * string) :=
  match fuel with
  | O => None
  | S fuel' =>
      match skip_ws s with
      | String a r =>
          if Ascii.eqb a quote_char then
            match parse_string r with
            | Some (k, r1) =>
                match skip_ws r1 with
                | String ":" r2 =>
                    match parse_value fuel' r2 with
                    | Some (v, r3) =>
                        match skip_ws r3 with
                        | String "," r4 =>
                            match parse_members fuel' r4 with
                            | Some (props, rest) => Some ((k, v) :: props, rest)
                            | None => None
                            end
                        | String "}" rest => Some ([(k, v)], rest)
                        | _ => None
                        end
                    | None => None
                    end
                | _ => None
                end
            | None => None
            end
          else None
      | EmptyString => None
      end
  end.

(** [JSON.parse(s)]; [None] is a SyntaxError. *)
Definition parse (s : string) : option JS.value :=
  match parse_value (S (String.length s)) s with
  | Some (v, rest) =>
      match skip_ws rest with
      | EmptyString => Some v
      | _ => None
      end
  | None => None
  end.

End Json.

(* ===================================================================== *)
(** ** Vocabulary of the statements *)
(* ===================================================================== *)

Import Browser.

(** What the two [replace] calls of [uint8ToBase64Url] do to a character. *)
Definition url_char (a : ascii) : ascii :=
  let a1 := if Ascii.eqb a "+" then "-"%char else a in
  if Ascii.eqb a1 "/" then "_"%char else a1.

Definition sextet_ok (i : nat) : bool :=
  Ascii.eqb (url_char (Encoding.sextet_char Encoding.b64_alphabet (N.of_nat i)))
            (Encoding.sextet_char Encoding.b64url_alphabet (N.of_nat i))
  && negb (Ascii.eqb (Encoding.sextet_char Encoding.b64url_alphabet (N.of_nat i)) "=").

(** A computation leaves the localStorage entry [k] as it found it,
    however it ends. *)
Definition preserves {A} (k : string) (c : M A) : Prop :=
  forall w, localStorage (c w).2 !! k = localStorage w !! k.

(** The stored access token [t] is usable: it is there, and its expiry is
    more than 30 s away. *)
Definition cached_token (w : World) (t : string) : Prop :=
  localStorage w !! SpotifyAuth.LS_KEYS.token = Some t /\ t <> "" /\
  exists raw e,
    localStorage w !! SpotifyAuth.LS_KEYS.tokenExpiry = Some raw /\
    JS.Number raw = JS.Num e /\
    clock w < e - 30000.

(** The stored entry [k], if there is one, is not the empty string. *)
Definition entry_nonempty (k : string) (w : World) : Prop :=
  localStorage w !! k <> Some "".

(** A response field that is a string, or missing. *)
Definition string_or_absent (v : JS.value) : Prop :=
  match v with
  | JS.Str _ | JS.Undefined | JS.Null => True
  | _ => False
  end.

(** The request [apiFetch] sends for the loop variable [url] under the
    bearer token [t]. *)
Definition page_request (t : string) (url : JS.value) : Request :=
  SpotifyApi.api_request (JS.Str t)
    (match url with
     | JS.Str s => JS.replace_first SpotifyApi.API_BASE "" s
     | _ => EmptyString
     end)
    SpotifyApi.no_fetch_options.

(** The server, having seen [log], answers the walk that starts at [url]
    with the page bodies [pages], each linked to the next by its [next]
    field, the last one without a next page. *)
Inductive paged (w : World) (t : string)
  : list Request -> JS.value -> list JS.value -> Prop :=
| paged_end log url :
    JS.truthy url = false -> paged w t log url []
| paged_next log s res page pages :
    s <> "" ->
    server w log (page_request t (JS.Str s)) = Resolved res ->
    ok res = true ->
    json res = Some page ->
    page <> JS.Undefined -> page <> JS.Null ->
    paged w t (log ++ [page_request t (JS.Str s)]) (JS.opt_get "next" page) pages ->
    paged w t log (JS.Str s) (page :: pages).

(** The items of a page body: its [items] array, none when the field is
    missing or null. *)
Definition page_items (page : JS.value) : list JS.value :=
  match JS.or_else (JS.opt_get "items" page) (JS.Arr []) with
  | JS.Arr l => l
  | _ => []
  end.

Definition items_ok (page : JS.value) : Prop :=
  exists l, JS.or_else (JS.opt_get "items" page) (JS.Arr []) = JS.Arr l.

(** The requests of a walk over [pages] from [url], in order. *)
Fixpoint page_requests (t : string) (url : JS.value) (pages : list JS.value)
  : list Request :=
  match pages with
  | [] => []
  | page :: rest =>
      page_request t url :: page_requests t (JS.opt_get "next" page) rest
  end.

(** The platform's JSON carries [v] from world [w] to world [w']:
    [JSON.stringify] gives a non-empty text that [JSON.parse] reads back
    as [v]. *)
Definition json_round_trips (w w' : World) (v : JS.value) : Prop :=
  JSON_stringify w v <> "" /\
  JSON_parse w' (JSON_stringify w v) = Some v.

(** [e] is the entry that [getPlaylistsWithTracks] pushes for [p]. *)
Definition entry_of (p e : JS.value) : Prop :=
  exists tracks, e = SpotifyApi.named_playlist p tracks.

(* ===================================================================== *)
(** ** Example worlds *)
(* ===================================================================== *)

Module Scenario.

(** A stand-in for SHA-256: 32 bytes out of the input, zero padded. *)
Definition toy_digest (data : list byte) : list byte :=
  firstn 32 (data ++ repeat x00 32).

Definition toy_rng (i : nat) : byte :=
  match Byte.of_nat (i * 37 mod 256) with
  | Some b => b
  | None => x00
  end.

Definition offline : list Request -> Request -> FetchResult :=
  fun _ _ => Rejected.

Definition app_url (query : list (string * string)) : Url :=
  mkUrl "https://app.example/" query.

Definition world (ls : gmap string string) (quota : option nat)
    (loc : Url) (idb : gmap string JS.value)
    (srv : list Request -> Request -> FetchResult) : World :=
  mkWorld ls quota 1700000000000 toy_rng 0 loc None true idb srv []
    (Some "abc") None toy_digest Json.stringify Json.parse.

(** A session with an access token good for another hour. *)
Definition signed_in : gmap string string :=
  <[SpotifyAuth.LS_KEYS.token := "tok"]>
    (<[SpotifyAuth.LS_KEYS.tokenExpiry := "1700003600000"]>
       (<[SpotifyAuth.LS_KEYS.refreshToken := "refresh-1"]> ∅)).

(** A session whose access token ran out, with a refresh token. *)
Definition expired : gmap string string :=
  <[SpotifyAuth.LS_KEYS.token := "old"]>
    (<[SpotifyAuth.LS_KEYS.tokenExpiry := "1600000000000"]>
       (<[SpotifyAuth.LS_KEYS.refreshToken := "refresh-1"]> ∅)).

(** A server that answers by the request URL alone. *)
Fixpoint by_url (routes : list (string * Response))
  : list Request -> Request -> FetchResult :=
  fun log rq =>
    match routes with
    | [] => Rejected
    | (u, res) :: rest =>
        if String.eqb (req_url rq) u then Resolved res else by_url rest log rq
    end.

Definition json_response (v : JS.value) : Response :=
  mkResponse 200 (Json.stringify v) (Some v).

Definition api (path : string) : string := SpotifyApi.API_BASE +:+ path.

(** The two pages [{items:[a,b], next:"p2"}, {items:[c], next:null}]. *)
Definition page1 (a b : JS.value) : JS.value :=
  JS.Obj [("items", JS.Arr [a; b]); ("next", JS.Str "p2")].
Definition page2 (c : JS.value) : JS.value :=
  JS.Obj [("items", JS.Arr [c]); ("next", JS.Null)].

Definition two_pages (first : string) (a b c : JS.value) : World :=
  world signed_in None (app_url []) ∅
    (by_url [(api first, json_response (page1 a b));
             (api "p2", json_response (page2 c))]).

(** A library of two playlists and one liked song; [liked] and [tracks1]
    are the answers of the saved-tracks endpoint and of the first
    playlist's tracks endpoint. *)
Definition mix : JS.value :=
  JS.Obj [("id", JS.Str "p1"); ("name", JS.Str "Mix");
          ("owner", JS.Obj [("id", JS.Str "u1"); ("display_name", JS.Str "Ann")])].
Definition road : JS.value :=
  JS.Obj [("id", JS.Str "p2"); ("name", JS.Str "Road"); ("owner", JS.Null)].
Definition song (name : string) : JS.value :=
  JS.Obj [("added_at", JS.Str "2020-01-01");
          ("track", JS.Obj [("name", JS.Str name)])].
Definition one_page (items : list JS.value) : Response :=
  json_response (JS.Obj [("items", JS.Arr items); ("next", JS.Null)]).
Definition broken : Response := mkResponse 500 "boom" None.

Definition library (liked tracks1 : Response) : World :=
  world signed_in None (app_url []) ∅
    (by_url [(api "/me/playlists?limit=50", one_page [mix; road]);
             (api "/me/tracks?limit=50", liked);
             (api "/playlists/p1/tracks?limit=100", tracks1);
             (api "/playlists/p2/tracks?limit=100", one_page [song "Two"])]).

End Scenario.

(* ===================================================================== *)
(** ** Vocabulary of the further properties *)
(* ===================================================================== *)

(** The localStorage entries after [storeTokenResponse] has stored the
    fields of [json] at time [now], when every write is accepted. *)
Definition stored_fields (json : JS.value) (now : Z) (m : gmap string string)
  : gmap string string :=
  let access_token := JS.opt_get "access_token" json in
  let expires_in := JS.opt_get "expires_in" json in
  let refresh_token := JS.opt_get "refresh_token" json in
  let m1 := if JS.truthy access_token
            then <[SpotifyAuth.LS_KEYS.token := JS.ToString access_token]> m
            else m in
  let m2 := if JS.truthy expires_in
            then <[SpotifyAuth.LS_KEYS.tokenExpiry :=
                     JS.String_of_num
                       (JS.num_add (JS.Num now)
                          (JS.num_mul (JS.ToNumber expires_in) (JS.Num 1000)))]> m1
            else m1 in
  if JS.truthy refresh_token
  then <[SpotifyAuth.LS_KEYS.refreshToken := JS.ToString refresh_token]> m2
  else m2.

(** The body of the authorization-code exchange. *)
Definition code_exchange_request (code redirectUri : string)
    (clientId : option string) (verifier : string) : Request :=
  SpotifyAuth.token_request
    [("grant_type", "authorization_code");
     ("code", code);
     ("redirect_uri", redirectUri);
     ("client_id", JS.opt_ToString "undefined" clientId);
     ("code_verifier", verifier)].

(** The characters of [byte.toString(16)]. *)
Definition is_hex_digit (a : ascii) : bool := JS.occurs a "0123456789abcdef".

Fixpoint all_chars (p : ascii -> bool) (s : string) : bool :=
  match s with
  | EmptyString => true
  | String a r => p a && all_chars p r
  end.

(** The byte that two hexadecimal digits stand for. *)
Definition hex_val (a : ascii) : option N :=
  let n := N_of_ascii a in
  if ((48 <=? n) && (n <=? 57))%N then Some (n - 48)%N
  else if ((97 <=? n) && (n <=? 102))%N then Some (n - 87)%N
  else None.

Definition unhex2 (s : string) : option byte :=
  match s with
  | String h (String l EmptyString) =>
      match hex_val h, hex_val l with
      | Some x, Some y => Byte.of_N (16 * x + y)
      | _, _ => None
      end
  | _ => None
  end.

(** Reading a string of hexadecimal digit pairs back into bytes. *)
Fixpoint unhex (s : string) : option (list byte) :=
  match s with
  | EmptyString => Some []
  | String h (String l r) =>
      match unhex2 (String h (String l EmptyString)), unhex r with
      | Some b, Some bs => Some (b :: bs)
      | _, _ => None
      end
  | _ => None
  end.

(** A track in the shape [sanitizeTrack] gives to well-typed input: a
    non-empty name, artists that are non-empty strings, an album that is
    a string or null, and the three remaining fields truthy or null. *)
Definition truthy_or_null (v : JS.value) : Prop :=
  JS.truthy v = true \/ v = JS.Null.

Definition artist_string (v : JS.value) : Prop :=
  exists s, v = JS.Str s /\ s <> "".

Definition album_value (v : JS.value) : Prop :=
  (exists s, v = JS.Str s) \/ v = JS.Null.

Definition clean_track (o : JS.value) : Prop :=
  exists name artists album added_at uri duration_ms,
    o = JS.Obj [("name", name); ("artists", JS.Arr artists); ("album", album);
                ("added_at", added_at); ("uri", uri);
                ("duration_ms", duration_ms)] /\
    JS.truthy name = true /\
    Forall artist_string artists /\
    album_value album /\
    truthy_or_null added_at /\ truthy_or_null uri /\ truthy_or_null duration_ms.

(** The names of an object's properties, in order. *)
Definition keys (v : JS.value) : list string :=
  match v with
  | JS.Obj props => List.map fst props
  | _ => []
  end.

(** The server, having seen [log], answers the first pages of the walk
    from [url] with [pages]; the walk then stands at [url']. *)
Inductive walked (w : World) (t : string)
  : list Request -> JS.value -> list JS.value -> JS.value -> Prop :=
| walked_here log url : walked w t log url [] url
| walked_step log s res page pages url' :
    s <> "" ->
    server w log (page_request t (JS.Str s)) = Resolved res ->
    ok res = true ->
    json res = Some page ->
    page <> JS.Undefined -> page <> JS.Null ->
    walked w t (log ++ [page_request t (JS.Str s)]) (JS.opt_get "next" page)
      pages url' ->
    walked w t log (JS.Str s) (page :: pages) url'.

(* ===================================================================== *)
(** * Properties *)
(* ===================================================================== *)

(** ** Strings *)

Section StringFacts.

Lemma length_append (s t : string) :
  String.length (s +:+ t) = (String.length s + String.length t)%nat.
Proof. induction s as [|a s IH]; simpl; [reflexivity | now rewrite IH]. Qed.

Lemma occurs_replaced (c d : ascii) (s : string) :
  c <> d -> JS.occurs c (JS.replace_all_char c d s) = false.
Proof.
  intros Hcd. induction s as [|a s IH]; simpl; [reflexivity|].
  rewrite IH, orb_false_r.
  destruct (Ascii.eqb_spec a c) as [->|Hac].
  - apply Ascii.eqb_neq. congruence.
  - now apply Ascii.eqb_neq.
Qed.

Lemma occurs_replace_other (x c d : ascii) (s : string) :
  x <> d -> JS.occurs x s = false ->
  JS.occurs x (JS.replace_all_char c d s) = false.
Proof.
  intros Hxd. induction s as [|a s IH]; simpl; [reflexivity|].
  intros [Ha Hs]%orb_false_iff. rewrite (IH Hs), orb_false_r.
  destruct (Ascii.eqb a c); [|exact Ha].
  apply Ascii.eqb_neq. congruence.
Qed.

Lemma strip_trailing_cons (c a : ascii) (s : string) :
  a <> c -> JS.strip_trailing c (String a s) = String a (JS.strip_trailing c s).
Proof.
  intros Hac. simpl. destruct (JS.strip_trailing c s); [|reflexivity].
  now apply Ascii.eqb_neq in Hac as ->.
Qed.

Lemma occurs_strip (x c : ascii) (s : string) :
  JS.occurs x s = false -> JS.occurs x (JS.strip_trailing c s) = false.
Proof.
  induction s as [|a s IH]; simpl; [reflexivity|].
  intros [Ha Hs]%orb_false_iff. specialize (IH Hs).
  destruct (JS.strip_trailing c s) as [|b r].
  - destruct (Ascii.eqb a c); simpl; [reflexivity | now rewrite Ha].
  - change (JS.occurs x (String a (String b r)))
      with (Ascii.eqb a x || JS.occurs x (String b r)).
    now rewrite Ha, IH.
Qed.

Lemma last_char_strip (c : ascii) (s : string) :
  JS.last_char (JS.strip_trailing c s) <> Some c.
Proof.
  induction s as [|a s IH]; simpl; [discriminate|].
  destruct (JS.strip_trailing c s) as [|b r].
  - destruct (Ascii.eqb_spec a c); simpl; congruence.
  - exact IH.
Qed.

(** Strings can be taken apart three characters at a time. *)
Lemma string_ind3 (P : string -> Prop) :
  P EmptyString ->
  (forall a, P (String a EmptyString)) ->
  (forall a b, P (String a (String b EmptyString))) ->
  (forall a b c r, P r -> P (String a (String b (String c r)))) ->
  forall s, P s.
Proof.
  intros H0 H1 H2 H3 s.
  assert (H : P s /\ (forall a, P (String a s)) /\
              (forall a b, P (String a (String b s)))).
  { induction s as [|c s (IHs & IH1 & IH2)]; [now auto|].
    split; [apply IH1|]. split; [intros a; apply IH2|].
    intros a b. now apply H3. }
  apply H.
Qed.

End StringFacts.

(** ** The encoders of spotifyAuth.js *)

Section EncodingFacts.
Import Encoding.

Lemma hex2_length (b : byte) : String.length (hex2 b) = 2%nat.
Proof. destruct b; vm_compute; reflexivity. Qed.

Lemma join_hex2_length (l : list byte) :
  String.length (JS.join (List.map hex2 l)) = (2 * List.length l)%nat.
Proof.
  induction l as [|b l IH]; simpl; [reflexivity|].
  rewrite length_append, hex2_length, IH. lia.
Qed.

(** A generated string has two hexadecimal digits per random byte. *)
Lemma generateRandomString_length (rnd : nat -> byte) (n : nat) :
  String.length (generateRandomString rnd n) = (2 * n)%nat.
Proof.
  unfold generateRandomString.
  now rewrite join_hex2_length, length_map, length_seq.
Qed.

Lemma sextet_url (i : N) :
  (i < 64)%N ->
  url_char (sextet_char b64_alphabet i) = sextet_char b64url_alphabet i /\
  sextet_char b64url_alphabet i <> "="%char.
Proof.
  intros Hi.
  assert (Hall : forallb sextet_ok (seq 0 64) = true) by (vm_compute; reflexivity).
  rewrite forallb_forall in Hall.
  assert (Hin : In (N.to_nat i) (seq 0 64)) by (apply in_seq; lia).
  specialize (Hall _ Hin).
  unfold sextet_ok in Hall. rewrite N2Nat.id in Hall.
  apply andb_true_iff in Hall as [H1 H2].
  split; [now apply Ascii.eqb_eq|].
  apply Ascii.eqb_neq. now apply negb_true_iff.
Qed.

Lemma replace_both_cons (a : ascii) (s : string) :
  JS.replace_all_char "/" "_" (JS.replace_all_char "+" "-" (String a s)) =
  String (url_char a)
    (JS.replace_all_char "/" "_" (JS.replace_all_char "+" "-" s)).
Proof. reflexivity. Qed.

(** The chain of [replace] calls on [btoa]'s output yields the unpadded
    URL-safe encoding. *)
Lemma strip_replace_btoa (s : string) :
  JS.strip_trailing "="
    (JS.replace_all_char "/" "_" (JS.replace_all_char "+" "-" (btoa s))) =
  base64_with b64url_alphabet EmptyString s.
Proof.
  unfold btoa.
  induction s as [|a|a b|a b c r IH] using string_ind3.
  - reflexivity.
  - cbn [base64_with]. rewrite !replace_both_cons.
    destruct (sextet_url ((code a * 65536 / 262144) mod 64)) as [-> N1];
      [now apply N.mod_lt|].
    destruct (sextet_url ((code a * 65536 / 4096) mod 64)) as [-> N2];
      [now apply N.mod_lt|].
    rewrite !strip_trailing_cons by assumption. reflexivity.
  - cbn [base64_with]. rewrite !replace_both_cons.
    set (n := (code a * 65536 + code b * 256)%N).
    destruct (sextet_url ((n / 262144) mod 64)) as [-> N1]; [now apply N.mod_lt|].
    destruct (sextet_url ((n / 4096) mod 64)) as [-> N2]; [now apply N.mod_lt|].
    destruct (sextet_url ((n / 64) mod 64)) as [-> N3]; [now apply N.mod_lt|].
    rewrite !strip_trailing_cons by assumption. reflexivity.
  - cbn [base64_with]. rewrite !replace_both_cons.
    set (n := (code a * 65536 + code b * 256 + code c)%N).
    destruct (sextet_url ((n / 262144) mod 64)) as [-> N1]; [now apply N.mod_lt|].
    destruct (sextet_url ((n / 4096) mod 64)) as [-> N2]; [now apply N.mod_lt|].
    destruct (sextet_url ((n / 64) mod 64)) as [-> N3]; [now apply N.mod_lt|].
    destruct (sextet_url (n mod 64)) as [-> N4]; [now apply N.mod_lt|].
    rewrite !strip_trailing_cons by assumption. now rewrite IH.
Qed.

Lemma uint8ToBase64Url_spec (bytes : list byte) :
  uint8ToBase64Url bytes = base64url_spec bytes.
Proof. apply strip_replace_btoa. Qed.

Lemma uint8ToBase64Url_urlsafe (bytes : list byte) :
  JS.occurs "+" (uint8ToBase64Url bytes) = false /\
  JS.occurs "/" (uint8ToBase64Url bytes) = false /\
  JS.last_char (uint8ToBase64Url bytes) <> Some "="%char.
Proof.
  unfold uint8ToBase64Url. split; [|split].
  - apply occurs_strip, occurs_replace_other; [discriminate|].
    apply occurs_replaced. discriminate.
  - apply occurs_strip, occurs_replaced. discriminate.
  - apply last_char_strip.
Qed.

End EncodingFacts.

(** ** Computations *)

Section MonadFacts.

Lemma bind_run {A B} (c : M A) (k : A -> M B) w a w1 :
  c w = (Return a, w1) -> bind c k w = k a w1.
Proof. unfold bind. now intros ->. Qed.

Lemma bind_throw {A B} (c : M A) (k : A -> M B) w e w1 :
  c w = (Throw e, w1) -> bind c k w = (Throw e, w1).
Proof. unfold bind. now intros ->. Qed.

Lemma bind_Return {A B} (c : M A) (k : A -> M B) w b w' :
  bind c k w = (Return b, w') ->
  exists a w1, c w = (Return a, w1) /\ k a w1 = (Return b, w').
Proof.
  unfold bind. destruct (c w) as [[a| |] w1]; intros H; try discriminate.
  eauto.
Qed.

Lemma bind_assoc {A B C} (c : M A) (f : A -> M B) (g : B -> M C) w :
  bind (bind c f) g w = bind c (fun a => bind (f a) g) w.
Proof. unfold bind. now destruct (c w) as [[a|e|] w1]. Qed.

Lemma bind_ext {A B} (c : M A) (f g : A -> M B) w :
  (forall a w1, f a w1 = g a w1) -> bind c f w = bind c g w.
Proof. intros H. unfold bind. now destruct (c w) as [[a|e|] w1]. Qed.

Lemma str_truthy_ne (s : string) : s <> "" <-> JS.str_truthy s = true.
Proof. destruct s; simpl; split; congruence. Qed.

Lemma opt_strict_eq_ne (a b : option string) :
  a <> b -> JS.opt_strict_eq a b = false.
Proof.
  destruct a as [x|], b as [y|]; simpl; try congruence.
  intros H. apply String.eqb_neq. congruence.
Qed.

Lemma prop_object p v w :
  v <> JS.Undefined -> v <> JS.Null ->
  prop p v w = (Return (JS.opt_get p v), w).
Proof.
  intros H1 H2. unfold prop, JS.get.
  destruct v; first [congruence | reflexivity].
Qed.

Lemma setItem_Return k v w u w' :
  setItem k v w = (Return u, w') ->
  w' = set_localStorage (<[k := v]> (localStorage w)) w.
Proof. unfold setItem. destruct (ls_fits k v w); congruence. Qed.

Lemma setItem_unlimited k v w :
  ls_quota w = None ->
  setItem k v w = (Return tt, set_localStorage (<[k := v]> (localStorage w)) w).
Proof. intros H. unfold setItem, ls_fits. now rewrite H. Qed.

Lemma set_net_log_same w : set_net_log (net_log w) w = w.
Proof. now destruct w. Qed.

End MonadFacts.

(** ** Frame rules for localStorage entries *)

Section Frame.
Context {A : Type}.

Lemma preserves_ret k (a : A) : preserves k (ret a).
Proof. now intros w. Qed.

Lemma preserves_throw k e : preserves k (@throw A e).
Proof. now intros w. Qed.

Lemma preserves_bind {B} k (c : M B) (f : B -> M A) :
  preserves k c -> (forall b, preserves k (f b)) -> preserves k (bind c f).
Proof.
  intros Hc Hf w. unfold bind. specialize (Hc w).
  destruct (c w) as [[b|e|] w1]; cbn [snd] in *; [|assumption..].
  now rewrite Hf.
Qed.

End Frame.

Lemma preserves_setItem k k' v : k <> k' -> preserves k (setItem k' v).
Proof.
  intros Hk w. unfold setItem. destruct (ls_fits k' v w); [|reflexivity].
  cbn. now apply lookup_insert_ne.
Qed.

Lemma preserves_when k b c : preserves k c -> preserves k (when b c).
Proof. destruct b; [trivial | intros _; apply preserves_ret]. Qed.

Lemma preserves_prop k p v : preserves k (prop p v).
Proof.
  unfold prop. destruct (JS.get p v); [apply preserves_ret | apply preserves_throw].
Qed.

Lemma preserves_Date_now k : preserves k Date_now.
Proof. now intros w. Qed.

Create HintDb frame.
#[local] Hint Resolve preserves_prop preserves_Date_now : frame.
#[local] Hint Extern 1 (preserves _ (when _ (setItem _ _))) =>
  apply preserves_when, preserves_setItem; discriminate : frame.

(** ** spotifyAuth.js *)

Section SpotifyAuthFacts.
Import SpotifyAuth.

(** *** PKCE material *)

(** C3.  Every PKCE material that [beginLogin] generates has a code
    verifier of at least 43 characters (128 hexadecimal digits), and the
    [code_challenge] of the authorization URL is the unpadded base64url
    encoding of the SHA-256 digest of the verifier: it has no [+], no
    [/] and does not end in [=]. *)
Theorem pkce_material_wellformed (options : Options) (w w' : World) :
  beginLogin options w = (Return tt, w') ->
  exists verifier challenge url,
    localStorage w' !! LS_KEYS.codeVerifier = Some verifier /\
    (43 <= String.length verifier)%nat /\
    assigned w' = Some url /\
    params_get "code_challenge" (searchParams url) = Some challenge /\
    challenge =
      Encoding.base64url_spec
        (digest_SHA256 w (Encoding.TextEncoder_encode verifier)) /\
    JS.occurs "+" challenge = false /\
    JS.occurs "/" challenge = false /\
    JS.last_char challenge <> Some "="%char.
Proof.
  unfold beginLogin. intros H.
  apply bind_Return in H as (cid & w1 & [= <- <-] & H).
  apply bind_Return in H as (ru & w1 & [= <- <-] & H).
  destruct (negb (JS.opt_truthy _)); [discriminate|].
  apply bind_Return in H as (verifier & w1 & [= <- <-] & H).
  apply bind_Return in H as (challenge & w2 & [= <- <-] & H).
  apply bind_Return in H as (state & w3 & [= <- <-] & H).
  apply bind_Return in H as ([] & w4 & H4 & H). apply setItem_Return in H4.
  apply bind_Return in H as ([] & w5 & H5 & H). apply setItem_Return in H5.
  injection H as <-. subst w5 w4.
  eexists _, _, _. split; [|split; [|split; [reflexivity|split; [reflexivity|]]]].
  - cbn [localStorage set_assigned set_localStorage set_rng_pos].
    rewrite lookup_insert_ne by discriminate. apply lookup_insert_eq.
  - rewrite generateRandomString_length. lia.
  - split; [apply uint8ToBase64Url_spec|]. apply uint8ToBase64Url_urlsafe.
Qed.

Lemma pkce_material_witness :
  let w := Scenario.world ∅ None (Scenario.app_url []) ∅ Scenario.offline in
  let w' := (beginLogin no_options w).2 in
  exists verifier challenge url,
    localStorage w' !! LS_KEYS.codeVerifier = Some verifier /\
    (43 <= String.length verifier)%nat /\
    assigned w' = Some url /\
    params_get "code_challenge" (searchParams url) = Some challenge /\
    challenge =
      Encoding.base64url_spec
        (digest_SHA256 w (Encoding.TextEncoder_encode verifier)) /\
    JS.occurs "+" challenge = false /\
    JS.occurs "/" challenge = false /\
    JS.last_char challenge <> Some "="%char.
Proof.
  intros w w'.
  apply (pkce_material_wellformed no_options w w').
  rewrite (surjective_pairing (beginLogin no_options w)).
  now f_equal.
Defined.

(** *** The redirect callback *)

(** [handleRedirectCallback] up to its two guards. *)
Lemma handleRedirectCallback_guards options w :
  handleRedirectCallback options w =
  (let code := params_get "code" (searchParams (location w)) in
   let state := params_get "state" (searchParams (location w)) in
   if negb (JS.opt_truthy code) then (Return false, w)
   else if negb (JS.opt_truthy state)
           || negb (JS.opt_strict_eq state (localStorage w !! LS_KEYS.state))
   then (Throw (Error "State mismatch"), w)
   else
     bind (exchangeCodeForToken code (effective_clientId options w)
             (effective_redirectUri options w))
       (fun _ =>
          bind (history_replaceState
                  (mkUrl (url_base (location w))
                     (params_delete "iss"
                        (params_delete "state"
                           (params_delete "code" (searchParams (location w)))))))
            (fun _ => ret true)) w).
Proof.
  unfold handleRedirectCallback, default_clientId, default_redirectUri.
  unfold bind at 1. unfold bind at 1. unfold bind at 1. unfold bind at 1.
  unfold getItem. cbv beta iota zeta.
  destruct (negb (JS.opt_truthy (params_get "code" (searchParams (location w)))));
    [reflexivity|].
  destruct (negb (JS.opt_truthy (params_get "state" (searchParams (location w))))
            || negb (JS.opt_strict_eq
                       (params_get "state" (searchParams (location w)))
                       (localStorage w !! LS_KEYS.state))); reflexivity.
Qed.

(** Without a truthy [code] the callback is a no-op. *)
Lemma handleRedirectCallback_falsy_code options w :
  JS.opt_truthy (params_get "code" (searchParams (location w))) = false ->
  handleRedirectCallback options w = (Return false, w).
Proof. intros H. rewrite handleRedirectCallback_guards. cbv zeta. now rewrite H. Qed.

(** C9.  For every URL without a [code] query parameter,
    [handleRedirectCallback] returns [false] and leaves the world as it
    was: no exception, no request, no change to localStorage or to the
    address bar. *)
Theorem handleRedirectCallback_without_code options w :
  params_get "code" (searchParams (location w)) = None ->
  handleRedirectCallback options w = (Return false, w).
Proof. intros H. apply handleRedirectCallback_falsy_code. now rewrite H. Qed.

Lemma handleRedirectCallback_without_code_witness :
  let w := Scenario.world Scenario.signed_in None
             (Scenario.app_url [("tab", "stats"); ("state", "zzz")]) ∅
             Scenario.offline in
  handleRedirectCallback no_options w = (Return false, w).
Proof.
  intros w. apply (handleRedirectCallback_without_code no_options w).
  reflexivity.
Defined.

(** C1 (amended).  For every callback URL with a non-empty [code]
    parameter, if the [state] parameter is absent or differs from the
    stored OAuth state, [handleRedirectCallback] throws 'State mismatch'
    and leaves the world as it was: no token exchange, stored tokens
    unchanged. *)
Theorem handleRedirectCallback_state_mismatch options w c :
  params_get "code" (searchParams (location w)) = Some c -> c <> "" ->
  params_get "state" (searchParams (location w)) = None \/
  params_get "state" (searchParams (location w)) <> localStorage w !! LS_KEYS.state ->
  handleRedirectCallback options w = (Throw (Error "State mismatch"), w).
Proof.
  intros Hc Hne Hs. rewrite handleRedirectCallback_guards.
  cbv zeta. rewrite Hc. cbn [JS.opt_truthy].
  apply str_truthy_ne in Hne as ->. cbn [negb].
  destruct Hs as [-> | Hs]; [reflexivity|].
  now rewrite (opt_strict_eq_ne _ _ Hs), orb_true_r.
Qed.

Lemma handleRedirectCallback_state_mismatch_witness :
  let w := Scenario.world (<[LS_KEYS.state := "expected"]> ∅) None
             (Scenario.app_url [("code", "AQB3"); ("state", "forged")]) ∅
             Scenario.offline in
  handleRedirectCallback no_options w = (Throw (Error "State mismatch"), w).
Proof.
  intros w.
  apply (handleRedirectCallback_state_mismatch no_options w "AQB3").
  - reflexivity.
  - discriminate.
  - right. vm_compute. discriminate.
Defined.

(** C1 as stated fails: a URL that carries an empty [code] parameter and
    a forged [state] is answered with [false], not with an exception. *)
Lemma state_mismatch_not_for_empty_code :
  ~ (forall options w c,
       params_get "code" (searchParams (location w)) = Some c ->
       params_get "state" (searchParams (location w)) = None \/
       params_get "state" (searchParams (location w))
         <> localStorage w !! LS_KEYS.state ->
       handleRedirectCallback options w = (Throw (Error "State mismatch"), w)).
Proof.
  intros H.
  specialize (H no_options
                (Scenario.world (<[LS_KEYS.state := "expected"]> ∅) None
                   (Scenario.app_url [("code", ""); ("state", "forged")]) ∅
                   Scenario.offline)
                "" eq_refl).
  rewrite handleRedirectCallback_falsy_code in H by reflexivity.
  assert (Hs : @Return bool false = Throw (Error "State mismatch"));
    [|discriminate Hs].
  apply (f_equal fst) in H; [exact H|].
  right. vm_compute. discriminate.
Qed.

(** *** Storing a token response *)

Lemma storeTokenResponse_keeps_refresh_token json :
  JS.opt_get "refresh_token" json = JS.Undefined ->
  preserves LS_KEYS.refreshToken (storeTokenResponse json).
Proof.
  intros Hj. unfold storeTokenResponse.
  apply preserves_bind; [auto with frame|intros now].
  apply preserves_bind; [auto with frame|intros access_token].
  apply preserves_bind; [auto with frame|intros _].
  apply preserves_bind; [auto with frame|intros expires_in].
  apply preserves_bind; [auto with frame|intros _].
  intros w. unfold bind, prop, JS.get.
  destruct json; cbn [fst snd throw ret]; try reflexivity;
    rewrite Hj; reflexivity.
Qed.

(** C8.  A token response without a [refresh_token] field leaves the
    stored refresh token as it was, neither overwritten nor removed:
    for [storeTokenResponse] on its own, and for a refresh exchange
    that is answered with such a response. *)
Theorem refresh_response_without_refresh_token (json : JS.value) :
  JS.opt_get "refresh_token" json = JS.Undefined ->
  (forall w,
     localStorage (storeTokenResponse json w).2 !! LS_KEYS.refreshToken =
     localStorage w !! LS_KEYS.refreshToken) /\
  (forall clientId w res,
     server w (net_log w)
       (refresh_request (localStorage w !! LS_KEYS.refreshToken) clientId)
       = Resolved res ->
     Browser.json res = Some json ->
     localStorage (refreshAccessToken clientId w).2 !! LS_KEYS.refreshToken =
     localStorage w !! LS_KEYS.refreshToken).
Proof.
  intros Hj. split; [apply storeTokenResponse_keeps_refresh_token, Hj|].
  intros cid w res Hres Hjson. unfold refreshAccessToken.
  unfold bind at 1. unfold getItem at 1.
  destruct (negb (JS.opt_truthy (localStorage w !! LS_KEYS.refreshToken)));
    [reflexivity|].
  unfold bind at 1. unfold fetch. rewrite Hres.
  destruct (negb (ok res)); [reflexivity|].
  unfold bind at 1. unfold res_json. rewrite Hjson. unfold ret at 1.
  pose proof (storeTokenResponse_keeps_refresh_token json Hj
                (set_net_log (net_log w ++
                   [refresh_request (localStorage w !! LS_KEYS.refreshToken) cid]) w))
    as Hs.
  cbn [localStorage set_net_log] in Hs.
  unfold bind at 1.
  destruct (storeTokenResponse json _) as [[[]|e|] w1]; cbn [snd] in *;
    try assumption.
  unfold bind, prop. destruct (JS.get "access_token" json); exact Hs.
Qed.

Lemma refresh_response_without_refresh_token_witness :
  let json := JS.Obj [("access_token", JS.Str "new");
                      ("expires_in", JS.Number_ 3600)] in
  let w := Scenario.world Scenario.expired None (Scenario.app_url []) ∅
             (Scenario.by_url [(TOKEN_ENDPOINT, Scenario.json_response json)]) in
  localStorage (storeTokenResponse json w).2 !! LS_KEYS.refreshToken
    = Some "refresh-1" /\
  localStorage (refreshAccessToken (Some "abc") w).2 !! LS_KEYS.refreshToken
    = Some "refresh-1".
Proof.
  intros json w.
  destruct (refresh_response_without_refresh_token json eq_refl) as [H1 H2].
  split.
  - rewrite (H1 w). reflexivity.
  - rewrite (H2 (Some "abc") w (Scenario.json_response json));
      reflexivity.
Defined.

End SpotifyAuthFacts.

(** *** Access tokens: cached, refreshed, or none *)

Section AccessTokenFacts.
Import SpotifyAuth.

Lemma Number_nonempty raw e : JS.Number raw = JS.Num e -> JS.str_truthy raw = true.
Proof. now destruct raw. Qed.

Lemma getStoredAccessToken_cached w t :
  0 <= clock w -> cached_token w t ->
  getStoredAccessToken w = (Return (Some t), w).
Proof.
  intros Hclk (Ht & Hne & raw & e & Hraw & Hnum & Hlt).
  unfold getStoredAccessToken, bind, getItem, Date_now, ret.
  rewrite Ht, Hraw. cbn [JS.opt_truthy JS.opt_ToString].
  rewrite (Number_nonempty _ _ Hnum), Hnum.
  apply str_truthy_ne in Hne as ->. cbn.
  destruct (Z.eqb_spec e 0) as [->|_]; [lia|].
  destruct (Z.geb_spec (clock w) (e - 30000)); [lia | reflexivity].
Qed.

(** [getStoredAccessToken] only reads; what it returns is a usable
    token. *)
Lemma getStoredAccessToken_run w :
  exists r, getStoredAccessToken w = (Return r, w) /\
            (forall t, r = Some t -> cached_token w t).
Proof.
  unfold getStoredAccessToken, bind, getItem, Date_now, ret.
  destruct (localStorage w !! LS_KEYS.token) as [t|] eqn:Ht;
    [|eexists; split; [reflexivity|discriminate]].
  destruct (localStorage w !! LS_KEYS.tokenExpiry) as [raw|] eqn:Hraw;
    cbn [JS.opt_truthy JS.opt_ToString];
    [|rewrite orb_true_r; eexists; split; [reflexivity|discriminate]].
  destruct (JS.str_truthy t) eqn:Htt; cbn [negb orb];
    [|eexists; split; [reflexivity|discriminate]].
  destruct (JS.str_truthy raw) eqn:Hrt; cbn [JS.num_falsy];
    [|eexists; split; [reflexivity|discriminate]].
  destruct (JS.Number raw) as [e|] eqn:Hnum; cbn [JS.num_falsy];
    [|eexists; split; [reflexivity|discriminate]].
  destruct (e =? 0); [eexists; split; [reflexivity|discriminate]|].
  cbn [JS.num_sub JS.num_geb].
  destruct (Z.geb_spec (clock w) (e - 30000));
    [eexists; split; [reflexivity|discriminate]|].
  exists (Some t). split; [reflexivity|].
  intros t' [= <-]. split; [assumption|]. split; [now apply str_truthy_ne|].
  exists raw, e. auto.
Qed.

Lemma getStoredAccessToken_none w :
  (forall t, ~ cached_token w t) -> getStoredAccessToken w = (Return None, w).
Proof.
  intros Hno. destruct (getStoredAccessToken_run w) as (r & -> & Hr).
  destruct r as [t|]; [|reflexivity]. exfalso. apply (Hno t). now apply Hr.
Qed.

(** With room in the store, a response object is stored and the request
    log is not touched. *)
Lemma storeTokenResponse_unlimited json w :
  ls_quota w = None -> json <> JS.Undefined -> json <> JS.Null ->
  exists w', storeTokenResponse json w = (Return tt, w') /\
             net_log w' = net_log w.
Proof.
  intros Hq H1 H2. unfold storeTokenResponse.
  unfold bind at 1. unfold Date_now at 1.
  rewrite (bind_run _ _ _ _ _ (prop_object _ _ _ H1 H2)).
  set (k1 := fun _ : unit => _).
  assert (Hstep : forall b k v (w0 : World) (f : unit -> M unit),
             ls_quota w0 = None ->
             exists w1, bind (when b (setItem k v)) f w0 = f tt w1 /\
                        net_log w1 = net_log w0 /\ ls_quota w1 = None).
  { intros [] k v w0 f Hq0; cbn [when].
    - rewrite (bind_run _ _ _ _ _ (setItem_unlimited k v w0 Hq0)). eauto.
    - unfold bind, ret. eauto. }
  destruct (Hstep (JS.truthy (JS.opt_get "access_token" json)) LS_KEYS.token
              (JS.ToString (JS.opt_get "access_token" json)) w k1 Hq)
    as (w1 & -> & Hl1 & Hq1).
  subst k1. cbv beta.
  rewrite (bind_run _ _ _ _ _ (prop_object _ _ _ H1 H2)).
  set (k2 := fun _ : unit => _).
  destruct (Hstep (JS.truthy (JS.opt_get "expires_in" json)) LS_KEYS.tokenExpiry
              (JS.String_of_num
                 (JS.num_add (JS.Num (clock w))
                    (JS.num_mul (JS.ToNumber (JS.opt_get "expires_in" json))
                       (JS.Num 1000)))) w1 k2 Hq1)
    as (w2 & -> & Hl2 & Hq2).
  subst k2. cbv beta.
  rewrite (bind_run _ _ _ _ _ (prop_object _ _ _ H1 H2)).
  destruct (JS.truthy (JS.opt_get "refresh_token" json)); cbn [when].
  - rewrite (setItem_unlimited _ _ _ Hq2). eexists. split; [reflexivity|].
    cbn. congruence.
  - eexists. split; [reflexivity|]. congruence.
Qed.

Lemma refreshAccessToken_no_token clientId w :
  JS.opt_truthy (localStorage w !! LS_KEYS.refreshToken) = false ->
  refreshAccessToken clientId w = (Return JS.Null, w).
Proof.
  intros H. unfold refreshAccessToken, bind, getItem. now rewrite H.
Qed.

Lemma refreshAccessToken_refused clientId w rt res :
  localStorage w !! LS_KEYS.refreshToken = Some rt -> rt <> "" ->
  server w (net_log w) (refresh_request (Some rt) clientId) = Resolved res ->
  ok res = false ->
  refreshAccessToken clientId w =
  (Return JS.Null,
   set_net_log (net_log w ++ [refresh_request (Some rt) clientId]) w).
Proof.
  intros Hrt Hne Hres Hok. unfold refreshAccessToken.
  unfold bind at 1. unfold getItem at 1. rewrite Hrt. cbn [JS.opt_truthy].
  apply str_truthy_ne in Hne as ->. cbn [negb].
  unfold bind at 1. unfold fetch. now rewrite Hres, Hok.
Qed.

Lemma refreshAccessToken_granted clientId w rt res json t :
  localStorage w !! LS_KEYS.refreshToken = Some rt -> rt <> "" ->
  server w (net_log w) (refresh_request (Some rt) clientId) = Resolved res ->
  ok res = true -> Browser.json res = Some json ->
  JS.opt_get "access_token" json = JS.Str t -> t <> "" ->
  ls_quota w = None ->
  exists w',
    refreshAccessToken clientId w = (Return (JS.Str t), w') /\
    net_log w' = net_log w ++ [refresh_request (Some rt) clientId].
Proof.
  intros Hrt Hne Hres Hok Hjson Hat Htne Hq. unfold refreshAccessToken.
  unfold bind at 1. unfold getItem at 1. rewrite Hrt. cbn [JS.opt_truthy].
  apply str_truthy_ne in Hne as ->. cbn [negb].
  unfold bind at 1. unfold fetch. rewrite Hres, Hok. cbn [negb].
  unfold bind at 1. unfold res_json. rewrite Hjson. unfold ret at 1.
  assert (Hn1 : json <> JS.Undefined) by (intros ->; discriminate).
  assert (Hn2 : json <> JS.Null) by (intros ->; discriminate).
  destruct (storeTokenResponse_unlimited json
              (set_net_log (net_log w ++ [refresh_request (Some rt) clientId]) w)
              Hq Hn1 Hn2) as (w' & Hst & Hlog).
  unfold bind at 1. rewrite Hst.
  rewrite (bind_run _ _ _ _ _ (prop_object _ _ _ Hn1 Hn2)).
  rewrite Hat. unfold JS.or_else. cbn [JS.truthy].
  apply str_truthy_ne in Htne as ->.
  exists w'. split; [reflexivity|]. exact Hlog.
Qed.

(** *** What the store holds after a token response *)

Lemma setItem_entry k k' v w :
  entry_nonempty k w -> (k = k' -> v <> "") ->
  entry_nonempty k (setItem k' v w).2.
Proof.
  unfold entry_nonempty, setItem. intros Hk Hv.
  destruct (ls_fits k' v w); cbn [snd localStorage set_localStorage]; [|exact Hk].
  destruct (decide (k' = k)) as [->|Hne].
  - rewrite lookup_insert_eq. intros [= ->]. now apply Hv.
  - now rewrite lookup_insert_ne.
Qed.

Lemma truthy_string_nonempty v :
  string_or_absent v -> JS.truthy v = true -> JS.ToString v <> "".
Proof. destruct v as [| | | |s| |]; cbn; try easy. now destruct s. Qed.

(** [storeTokenResponse] never leaves an empty access token or refresh
    token behind, for a response whose token fields are strings. *)
Lemma storeTokenResponse_tokens_nonempty json w k :
  k = LS_KEYS.token \/ k = LS_KEYS.refreshToken ->
  string_or_absent (JS.opt_get "access_token" json) ->
  string_or_absent (JS.opt_get "refresh_token" json) ->
  entry_nonempty k w -> entry_nonempty k (storeTokenResponse json w).2.
Proof.
  intros Hk Hat Hrt Hw. unfold storeTokenResponse.
  unfold bind at 1. unfold Date_now. unfold prop.
  assert (Hget : json = JS.Undefined \/ json = JS.Null \/
                 forall p, JS.get p json = Some (JS.opt_get p json))
    by (destruct json; auto).
  destruct Hget as [-> | [-> | Hget]]; [exact Hw..|].
  rewrite !Hget. clear Hget.
  unfold bind at 1. unfold ret at 1.
  assert (Hstep : forall (b : bool) k' v (w0 : World) (f : unit -> M unit),
             entry_nonempty k w0 -> (b = true -> k = k' -> v <> "") ->
             (forall w1, entry_nonempty k w1 -> entry_nonempty k (f tt w1).2) ->
             entry_nonempty k (bind (when b (setItem k' v)) f w0).2).
  { intros b k' v w0 f H0 Hv Hf. unfold bind. destruct b; cbn [when].
    - pose proof (setItem_entry k k' v w0 H0 (Hv eq_refl)) as Hs.
      unfold setItem in *. destruct (ls_fits k' v w0); cbn [snd] in *.
      + now apply Hf.
      + exact H0.
    - unfold ret. now apply Hf. }
  apply Hstep; [exact Hw| |].
  { intros Ht _. now apply truthy_string_nonempty. }
  intros w1 Hw1. unfold bind at 1. unfold ret at 1.
  apply Hstep; [exact Hw1| |].
  { intros _ ->. destruct Hk; discriminate. }
  intros w2 Hw2. unfold bind at 1. unfold ret at 1.
  destruct (JS.truthy (JS.opt_get "refresh_token" json)) eqn:Ht; cbn [when].
  - apply setItem_entry; [exact Hw2|]. intros _.
    now apply truthy_string_nonempty.
  - exact Hw2.
Qed.

(** The token getter in terms of its two steps. *)
Lemma getValidAccessToken_cached options w t :
  0 <= clock w -> cached_token w t ->
  getValidAccessToken options w = (Return (JS.Str t), w).
Proof.
  intros Hclk Ht. unfold getValidAccessToken, default_clientId.
  unfold bind at 1.
  rewrite (bind_run _ _ _ _ _ (getStoredAccessToken_cached w t Hclk Ht)).
  destruct Ht as (_ & Hne & _). cbn [JS.opt_truthy].
  now apply str_truthy_ne in Hne as ->.
Qed.

Lemma getValidAccessToken_refresh options w :
  (forall t, ~ cached_token w t) ->
  getValidAccessToken options w =
  refreshAccessToken (effective_clientId options w) w.
Proof.
  intros Hno. unfold getValidAccessToken, default_clientId.
  unfold bind at 1.
  rewrite (bind_run _ _ _ _ _ (getStoredAccessToken_none w Hno)).
  cbn [JS.opt_truthy]. unfold bind, ret.
  now destruct (refreshAccessToken _ w) as [[v|e|] w'].
Qed.

(** C2.  [getValidAccessToken] returns the stored access token while
    [now < expiry - 30000]; otherwise, with a refresh token stored, it
    performs exactly one refresh exchange and returns the new access
    token; it returns [null], without throwing, when the exchange is
    answered with a non-success status (after that one request) and
    when there is no refresh token (without any request). *)
Theorem getValidAccessToken_spec (options : Options) (w : World) :
  let clientId := effective_clientId options w in
  (forall t, 0 <= clock w -> cached_token w t ->
     getValidAccessToken options w = (Return (JS.Str t), w)) /\
  (forall rt res json t,
     (forall t', ~ cached_token w t') ->
     localStorage w !! LS_KEYS.refreshToken = Some rt -> rt <> "" ->
     server w (net_log w) (refresh_request (Some rt) clientId) = Resolved res ->
     ok res = true -> Browser.json res = Some json ->
     JS.opt_get "access_token" json = JS.Str t -> t <> "" ->
     ls_quota w = None ->
     exists w',
       getValidAccessToken options w = (Return (JS.Str t), w') /\
       net_log w' = net_log w ++ [refresh_request (Some rt) clientId]) /\
  (forall rt res,
     (forall t', ~ cached_token w t') ->
     localStorage w !! LS_KEYS.refreshToken = Some rt -> rt <> "" ->
     server w (net_log w) (refresh_request (Some rt) clientId) = Resolved res ->
     ok res = false ->
     getValidAccessToken options w =
     (Return JS.Null,
      set_net_log (net_log w ++ [refresh_request (Some rt) clientId]) w)) /\
  (forall _ : (forall t', ~ cached_token w t'),
     JS.opt_truthy (localStorage w !! LS_KEYS.refreshToken) = false ->
     getValidAccessToken options w = (Return JS.Null, w)).
Proof.
  intros cid. split; [|split; [|split]].
  - apply getValidAccessToken_cached.
  - intros rt res json t Hno Hrt Hne Hres Hok Hjson Hat Htne Hq.
    rewrite (getValidAccessToken_refresh options w Hno).
    now apply (refreshAccessToken_granted cid w rt res json t).
  - intros rt res Hno Hrt Hne Hres Hok.
    rewrite (getValidAccessToken_refresh options w Hno).
    now apply (refreshAccessToken_refused cid w rt res).
  - intros Hno Hrt.
    rewrite (getValidAccessToken_refresh options w Hno).
    now apply refreshAccessToken_no_token.
Qed.

Lemma expired_not_cached ls quota loc idb srv :
  ls !! LS_KEYS.tokenExpiry = Some "1600000000000" ->
  forall t, ~ cached_token (Scenario.world ls quota loc idb srv) t.
Proof.
  intros Hls t (_ & _ & raw & e & Hraw & Hnum & Hlt).
  cbn [localStorage Scenario.world] in Hraw. rewrite Hls in Hraw.
  injection Hraw as <-. vm_compute in Hnum. injection Hnum as <-.
  vm_compute in Hlt. discriminate.
Qed.

Lemma getValidAccessToken_spec_witness :
  let granted := JS.Obj [("access_token", JS.Str "new");
                         ("expires_in", JS.Number_ 3600)] in
  let rq := refresh_request (Some "refresh-1") (Some "abc") in
  let w1 := Scenario.world Scenario.signed_in None (Scenario.app_url []) ∅
              Scenario.offline in
  let w2 := Scenario.world Scenario.expired None (Scenario.app_url []) ∅
              (Scenario.by_url
                 [(TOKEN_ENDPOINT, Scenario.json_response granted)]) in
  let w3 := Scenario.world Scenario.expired None (Scenario.app_url []) ∅
              (Scenario.by_url
                 [(TOKEN_ENDPOINT, mkResponse 400 "invalid_grant" None)]) in
  let w4 := Scenario.world
              (delete LS_KEYS.refreshToken Scenario.expired) None
              (Scenario.app_url []) ∅ Scenario.offline in
  getValidAccessToken no_options w1 = (Return (JS.Str "tok"), w1) /\
  (exists w', getValidAccessToken no_options w2 = (Return (JS.Str "new"), w') /\
              net_log w' = [rq]) /\
  getValidAccessToken no_options w3 = (Return JS.Null, set_net_log [rq] w3) /\
  getValidAccessToken no_options w4 = (Return JS.Null, w4).
Proof.
  intros granted rq w1 w2 w3 w4. split; [|split; [|split]].
  - destruct (getValidAccessToken_spec no_options w1) as (H & _).
    apply H; [discriminate|].
    split; [reflexivity|]. split; [discriminate|].
    exists "1700003600000", 1700003600000.
    split; [reflexivity|]. split; reflexivity.
  - destruct (getValidAccessToken_spec no_options w2) as (_ & H & _).
    apply (H "refresh-1" (Scenario.json_response granted) granted "new");
      try reflexivity; try discriminate.
    now apply expired_not_cached.
  - destruct (getValidAccessToken_spec no_options w3) as (_ & _ & H & _).
    apply (H "refresh-1" (mkResponse 400 "invalid_grant" None));
      try reflexivity; try discriminate.
    now apply expired_not_cached.
  - destruct (getValidAccessToken_spec no_options w4) as (_ & _ & _ & H).
    apply H; [|reflexivity].
    now apply expired_not_cached.
Defined.

End AccessTokenFacts.

(** ** spotifyApi.js *)

Section ApiFetchFacts.
Import SpotifyApi.

Lemma ok_not_401 res : ok res = true -> (status res =? 401) = false.
Proof. unfold ok. lia. Qed.

(** [apiFetch] after the token has been obtained. *)
Lemma apiFetch_run path options w tok w1 :
  SpotifyAuth.getValidAccessToken SpotifyAuth.no_options w = (Return tok, w1) ->
  apiFetch path options w =
  if negb (JS.truthy tok)
  then (Throw (Error "Not authenticated with Spotify"), w1)
  else
    let rq := api_request tok path options in
    let w2 := set_net_log (net_log w1 ++ [rq]) w1 in
    match server w1 (net_log w1) rq with
    | Rejected => (Throw (TypeError "Failed to fetch"), w2)
    | Resolved res =>
        if status res =? 401 then (Throw (Error "Unauthorized"), w2)
        else if negb (ok res)
        then (Throw (Error ("Spotify API error " +:+ JS.String_of_Z (status res)
                            +:+ ": " +:+ text res)), w2)
        else res_json res w2
    end.
Proof.
  intros Htok. unfold apiFetch. rewrite (bind_run _ _ _ _ _ Htok).
  destruct (negb (JS.truthy tok)); [reflexivity|].
  unfold bind at 1. unfold fetch. cbv zeta.
  destruct (server w1 (net_log w1) (api_request tok path options)) as [res|];
    [|reflexivity].
  destruct (status res =? 401); [reflexivity|].
  destruct (negb (ok res)); reflexivity.
Qed.

(** C7 (amended).  [apiFetch] fails with 'Not authenticated with Spotify',
    before any request, when no valid access token is obtainable; with a
    token, a 401 response fails with the bare error 'Unauthorized', and
    every other non-2xx response with an error that carries the response
    status and body. *)
Theorem apiFetch_failures path options w tok w1 :
  SpotifyAuth.getValidAccessToken SpotifyAuth.no_options w = (Return tok, w1) ->
  (JS.truthy tok = false ->
   apiFetch path options w =
   (Throw (Error "Not authenticated with Spotify"), w1)) /\
  (JS.truthy tok = true ->
   forall res,
     server w1 (net_log w1) (api_request tok path options) = Resolved res ->
     ok res = false ->
     apiFetch path options w =
     (Throw (Error (if status res =? 401 then "Unauthorized"
                    else "Spotify API error " +:+ JS.String_of_Z (status res)
                         +:+ ": " +:+ text res)),
      set_net_log (net_log w1 ++ [api_request tok path options]) w1)).
Proof.
  intros Htok. rewrite (apiFetch_run path options w tok w1 Htok). split.
  - now intros ->.
  - intros -> res Hres Hok. cbn [negb]. cbv zeta. rewrite Hres, Hok.
    now destruct (status res =? 401).
Qed.

Lemma signed_in_cached quota loc idb srv :
  cached_token (Scenario.world Scenario.signed_in quota loc idb srv) "tok".
Proof.
  split; [reflexivity|]. split; [discriminate|].
  exists "1700003600000", 1700003600000.
  split; [reflexivity|]. split; reflexivity.
Qed.

Lemma apiFetch_failures_witness :
  let unauthorized := mkResponse 401 "token expired" None in
  let throttled := mkResponse 429 "slow down" None in
  let w0 := Scenario.world ∅ None (Scenario.app_url []) ∅ Scenario.offline in
  let w1 := Scenario.world Scenario.signed_in None (Scenario.app_url []) ∅
              (Scenario.by_url [(Scenario.api "/me", unauthorized)]) in
  let w2 := Scenario.world Scenario.signed_in None (Scenario.app_url []) ∅
              (Scenario.by_url [(Scenario.api "/me", throttled)]) in
  let rq := api_request (JS.Str "tok") "/me" no_fetch_options in
  apiFetch "/me" no_fetch_options w0
    = (Throw (Error "Not authenticated with Spotify"), w0) /\
  apiFetch "/me" no_fetch_options w1
    = (Throw (Error "Unauthorized"), set_net_log [rq] w1) /\
  apiFetch "/me" no_fetch_options w2
    = (Throw (Error "Spotify API error 429: slow down"), set_net_log [rq] w2).
Proof.
  intros unauthorized throttled w0 w1 w2 rq. split; [|split].
  - destruct (apiFetch_failures "/me" no_fetch_options w0 JS.Null w0 eq_refl)
      as [H _].
    apply H. reflexivity.
  - destruct (apiFetch_failures "/me" no_fetch_options w1 (JS.Str "tok") w1
                eq_refl) as [_ H].
    apply (H eq_refl unauthorized); reflexivity.
  - destruct (apiFetch_failures "/me" no_fetch_options w2 (JS.Str "tok") w2
                eq_refl) as [_ H].
    apply (H eq_refl throttled); reflexivity.
Defined.

(** C7 as stated fails: no reading of the thrown error gives back the
    body of a 401 response; two different bodies end in the same error. *)
Lemma unauthorized_error_drops_body :
  ~ (exists body_of : exn -> string,
       forall path options w tok w1 res,
         SpotifyAuth.getValidAccessToken SpotifyAuth.no_options w
           = (Return tok, w1) ->
         JS.truthy tok = true ->
         server w1 (net_log w1) (api_request tok path options) = Resolved res ->
         ok res = false ->
         exists e w2,
           apiFetch path options w = (Throw e, w2) /\ body_of e = text res).
Proof.
  intros [body_of H].
  pose (answer := fun body =>
          Scenario.world Scenario.signed_in None (Scenario.app_url []) ∅
            (Scenario.by_url [(Scenario.api "/me", mkResponse 401 body None)])).
  assert (Hrun : forall body,
             apiFetch "/me" no_fetch_options (answer body) =
             (Throw (Error "Unauthorized"),
              set_net_log [api_request (JS.Str "tok") "/me" no_fetch_options]
                (answer body))) by reflexivity.
  destruct (H "/me" no_fetch_options (answer "a") (JS.Str "tok") (answer "a")
              (mkResponse 401 "a" None) eq_refl eq_refl eq_refl eq_refl)
    as (ea & wa & Ha & Hba).
  destruct (H "/me" no_fetch_options (answer "b") (JS.Str "tok") (answer "b")
              (mkResponse 401 "b" None) eq_refl eq_refl eq_refl eq_refl)
    as (eb & wb & Hb & Hbb).
  rewrite Hrun in Ha, Hb. injection Ha as <- _. injection Hb as <- _.
  cbn [text] in Hba, Hbb. congruence.
Qed.

End ApiFetchFacts.

(** *** Following the next pointer *)

Section PagingFacts.
Import SpotifyApi.

Variable w : World.
Variable t : string.
Hypothesis clock_nonneg : 0 <= clock w.
Hypothesis token_cached : cached_token w t.

(** A page fetch under the cached token: one request, appended to the log. *)
Lemma apiFetch_page log path res page :
  server w log (api_request (JS.Str t) path no_fetch_options) = Resolved res ->
  ok res = true -> json res = Some page ->
  apiFetch path no_fetch_options (set_net_log log w) =
  (Return page,
   set_net_log (log ++ [api_request (JS.Str t) path no_fetch_options]) w).
Proof.
  intros Hres Hok Hjson.
  rewrite (apiFetch_run _ _ _ (JS.Str t) (set_net_log log w)).
  - destruct token_cached as (_ & Hne & _). cbn [JS.truthy].
    apply str_truthy_ne in Hne as ->. cbn [negb]. cbv zeta.
    cbn [server net_log set_net_log]. rewrite Hres, (ok_not_401 _ Hok), Hok.
    cbn [negb]. unfold res_json. now rewrite Hjson.
  - now apply getValidAccessToken_cached.
Qed.

Lemma playlists_loop_done fuel url all w0 :
  JS.truthy url = false -> playlists_loop fuel url all w0 = (Return all, w0).
Proof. intros H. destruct fuel; cbn [playlists_loop]; now rewrite H. Qed.

Lemma tracks_loop_done fuel url all w0 :
  JS.truthy url = false -> tracks_loop fuel url all w0 = (Return all, w0).
Proof. intros H. destruct fuel; cbn [tracks_loop]; now rewrite H. Qed.

(** The playlist walk returns the items of the pages, in page order, and
    sends one request per page, each after the answer to the one before. *)
Lemma playlists_loop_paged log url pages :
  paged w t log url pages -> Forall items_ok pages ->
  forall fuel all, (length pages <= fuel)%nat ->
    playlists_loop fuel url all (set_net_log log w) =
    (Return (all ++ concat (List.map page_items pages)),
     set_net_log (log ++ page_requests t url pages) w).
Proof.
  induction 1 as [log url Hurl | log s res page pages Hs Hres Hok Hjson Hn1 Hn2 _ IH];
    intros Hitems fuel all Hfuel.
  - rewrite playlists_loop_done by assumption.
    cbn [List.map concat page_requests]. now rewrite !app_nil_r.
  - destruct fuel as [|fuel]; [cbn in Hfuel; lia|].
    apply Forall_cons in Hitems as [[l Hl] Hitems].
    cbn [playlists_loop JS.truthy]. apply str_truthy_ne in Hs as ->.
    cbn [negb]. unfold url_path. unfold bind at 1. unfold ret at 1.
    rewrite (bind_run _ _ _ _ _ (apiFetch_page log _ res page Hres Hok Hjson)).
    rewrite (bind_run _ _ _ _ _ (prop_object "items" page _ Hn1 Hn2)).
    rewrite Hl. unfold spread. unfold bind at 1. unfold ret at 1.
    rewrite (bind_run _ _ _ _ _ (prop_object "next" page _ Hn1 Hn2)).
    rewrite IH; [|assumption|cbn in Hfuel; lia].
    cbn [List.map concat page_requests]. unfold page_items at 2. rewrite Hl.
    now rewrite <- !app_assoc.
Qed.

(** The track walk does the same and passes every item through
    [sanitizeTrack]. *)
Lemma tracks_loop_paged log url pages :
  paged w t log url pages -> Forall items_ok pages ->
  forall fuel all, (length pages <= fuel)%nat ->
    tracks_loop fuel url all (set_net_log log w) =
    (Return (all ++ List.map Sanitize.sanitizeTrack
                      (concat (List.map page_items pages))),
     set_net_log (log ++ page_requests t url pages) w).
Proof.
  induction 1 as [log url Hurl | log s res page pages Hs Hres Hok Hjson Hn1 Hn2 _ IH];
    intros Hitems fuel all Hfuel.
  - rewrite tracks_loop_done by assumption.
    cbn [List.map concat page_requests]. now rewrite !app_nil_r.
  - destruct fuel as [|fuel]; [cbn in Hfuel; lia|].
    apply Forall_cons in Hitems as [[l Hl] Hitems].
    cbn [tracks_loop JS.truthy]. apply str_truthy_ne in Hs as ->.
    cbn [negb]. unfold url_path. unfold bind at 1. unfold ret at 1.
    rewrite (bind_run _ _ _ _ _ (apiFetch_page log _ res page Hres Hok Hjson)).
    rewrite (bind_run _ _ _ _ _ (prop_object "items" page _ Hn1 Hn2)).
    rewrite Hl. unfold array_map. unfold bind at 1. unfold ret at 1.
    rewrite (bind_run _ _ _ _ _ (prop_object "next" page _ Hn1 Hn2)).
    rewrite IH; [|assumption|cbn in Hfuel; lia].
    cbn [List.map concat page_requests]. unfold page_items at 2. rewrite Hl.
    now rewrite List.map_app, <- !app_assoc.
Qed.

End PagingFacts.

Section FetcherFacts.
Import SpotifyApi.

(** C6 (amended).  The paginated fetchers follow the server-supplied
    [next] pointer until it is null or absent, one request per page, each
    request built from the answer to the one before.
    [getAllCurrentUserPlaylists] returns the concatenation of every page's
    items in page order; [getAllPlaylistTracks] returns that concatenation
    with every item passed through [sanitizeTrack].  For the two pages
    [{items:[a,b], next:"p2"}, {items:[c], next:null}] the playlists
    fetcher returns [a,b,c] after exactly two requests. *)
Theorem paginated_fetchers (w : World) (t : string) :
  0 <= clock w -> cached_token w t ->
  (forall pages fuel,
     paged w t (net_log w) (JS.Str "/me/playlists?limit=50") pages ->
     Forall items_ok pages -> (length pages <= fuel)%nat ->
     getAllCurrentUserPlaylists fuel w =
     (Return (concat (List.map page_items pages)),
      set_net_log
        (net_log w ++ page_requests t (JS.Str "/me/playlists?limit=50") pages) w)) /\
  (forall playlistId pages fuel,
     paged w t (net_log w) (JS.Str (playlist_tracks_url playlistId)) pages ->
     Forall items_ok pages -> (length pages <= fuel)%nat ->
     getAllPlaylistTracks fuel playlistId w =
     (Return (List.map Sanitize.sanitizeTrack (concat (List.map page_items pages))),
      set_net_log
        (net_log w ++ page_requests t (JS.Str (playlist_tracks_url playlistId)) pages)
        w)) /\
  (forall a b c fuel,
     (2 <= fuel)%nat ->
     let w2 := Scenario.two_pages "/me/playlists?limit=50" a b c in
     getAllCurrentUserPlaylists fuel w2 =
     (Return [a; b; c],
      set_net_log
        [page_request "tok" (JS.Str "/me/playlists?limit=50");
         page_request "tok" (JS.Str "p2")] w2)).
Proof.
  intros Hclk Htok. split; [|split].
  - intros pages fuel Hpaged Hitems Hfuel.
    pose proof (playlists_loop_paged w t Hclk Htok _ _ pages Hpaged Hitems
                  fuel [] Hfuel) as Hloop.
    rewrite set_net_log_same in Hloop. exact Hloop.
  - intros playlistId pages fuel Hpaged Hitems Hfuel.
    pose proof (tracks_loop_paged w t Hclk Htok _ _ pages Hpaged Hitems
                  fuel [] Hfuel) as Hloop.
    rewrite set_net_log_same in Hloop. exact Hloop.
  - intros a b c fuel Hfuel w2.
    apply (playlists_loop_paged w2 "tok" ltac:(discriminate)
             (signed_in_cached _ _ _ _) [] _
             [Scenario.page1 a b; Scenario.page2 c]).
    + eapply paged_next; try reflexivity; try discriminate.
      eapply paged_next; try reflexivity; try discriminate.
      now apply paged_end.
    + repeat constructor; eexists; reflexivity.
    + exact Hfuel.
Qed.

Lemma paginated_fetchers_witness :
  let a := JS.Obj [("id", JS.Str "p1")] in
  let b := JS.Obj [("id", JS.Str "p2")] in
  let c := JS.Obj [("id", JS.Str "p3")] in
  let start := "/playlists/p9/tracks?limit=100" in
  let w1 := Scenario.two_pages "/me/playlists?limit=50" a b c in
  let w2 := Scenario.two_pages start a b c in
  getAllCurrentUserPlaylists 2 w1 =
    (Return [a; b; c],
     set_net_log [page_request "tok" (JS.Str "/me/playlists?limit=50");
                  page_request "tok" (JS.Str "p2")] w1) /\
  getAllPlaylistTracks 2 (JS.Str "p9") w2 =
    (Return (List.map Sanitize.sanitizeTrack [a; b; c]),
     set_net_log [page_request "tok" (JS.Str start);
                  page_request "tok" (JS.Str "p2")] w2).
Proof.
  intros a b c start w1 w2. split.
  - destruct (paginated_fetchers w1 "tok" ltac:(discriminate)
                (signed_in_cached _ _ _ _)) as (H & _ & _).
    apply (H [Scenario.page1 a b; Scenario.page2 c] 2%nat).
    + eapply paged_next; try reflexivity; try discriminate.
      eapply paged_next; try reflexivity; try discriminate.
      now apply paged_end.
    + repeat constructor; eexists; reflexivity.
    + cbn. lia.
  - destruct (paginated_fetchers w2 "tok" ltac:(discriminate)
                (signed_in_cached _ _ _ _)) as (_ & H & _).
    apply (H (JS.Str "p9") [Scenario.page1 a b; Scenario.page2 c] 2%nat).
    + eapply paged_next; try reflexivity; try discriminate.
      eapply paged_next; try reflexivity; try discriminate.
      now apply paged_end.
    + repeat constructor; eexists; reflexivity.
    + cbn. lia.
Defined.

(** C6 as stated fails for [getAllPlaylistTracks]: what it returns for a
    page item is the item's sanitized projection, not the item. *)
Lemma tracks_fetcher_returns_projections :
  ~ (forall w t playlistId pages fuel,
       0 <= clock w -> cached_token w t ->
       paged w t (net_log w) (JS.Str (playlist_tracks_url playlistId)) pages ->
       Forall items_ok pages -> (length pages <= fuel)%nat ->
       exists w',
         getAllPlaylistTracks fuel playlistId w =
         (Return (concat (List.map page_items pages)), w')).
Proof.
  intros H.
  pose (item := JS.Obj [("added_at", JS.Str "2020-01-01");
                        ("track", JS.Obj [("name", JS.Str "Song")])]).
  pose (page := JS.Obj [("items", JS.Arr [item]); ("next", JS.Null)]).
  pose (w := Scenario.world Scenario.signed_in None (Scenario.app_url []) ∅
               (Scenario.by_url
                  [(Scenario.api "/playlists/p1/tracks?limit=100",
                    Scenario.json_response page)])).
  destruct (H w "tok" (JS.Str "p1") [page] 1%nat) as (w' & Hw').
  - discriminate.
  - apply signed_in_cached.
  - eapply paged_next; try reflexivity; try discriminate.
    now apply paged_end.
  - repeat constructor; eexists; reflexivity.
  - cbn. lia.
  - apply (f_equal fst) in Hw'. vm_compute in Hw'. discriminate Hw'.
Qed.

(** *** Assembling the library *)

Lemma push_liked_run fuel result w0 :
  match getAllSavedTracks fuel w0 with
  | (Return liked, w1) =>
      push_liked fuel result w0 = (Return (result ++ [liked_playlist liked]), w1)
  | (Throw _, w1) => push_liked fuel result w0 = (Return result, w1)
  | (OutOfFuel, w1) => push_liked fuel result w0 = (OutOfFuel, w1)
  end.
Proof.
  unfold push_liked, try_catch, bind.
  now destruct (getAllSavedTracks fuel w0) as [[liked|e|] w1].
Qed.

(** The loop over the named playlists appends one entry per playlist, in
    the order of the list. *)
Lemma named_loop_entries fuel playlists :
  forall result w0 r w1,
    named_loop fuel playlists result w0 = (Return r, w1) ->
    exists named, r = result ++ named /\ Forall2 entry_of playlists named.
Proof.
  induction playlists as [|p rest IH]; intros result w0 r w1 H.
  - injection H as <- _. exists []. split; [now rewrite app_nil_r | constructor].
  - cbn [named_loop] in H.
    apply bind_Return in H as (id & w2 & _ & H).
    apply bind_Return in H as (tracks & w3 & _ & H).
    apply IH in H as (named & -> & Hnamed).
    exists (named_playlist p tracks :: named). split.
    + now rewrite <- app_assoc.
    + constructor; [now exists tracks | assumption].
Qed.

Lemma named_loop_app fuel pre post result w0 :
  named_loop fuel (pre ++ post) result w0 =
  bind (named_loop fuel pre result) (fun done => named_loop fuel post done) w0.
Proof.
  revert result w0. induction pre as [|p pre IH]; intros result w0.
  - reflexivity.
  - cbn [app named_loop]. rewrite bind_assoc.
    apply bind_ext. intros id w1. rewrite bind_assoc.
    apply bind_ext. intros tracks w2. apply IH.
Qed.

Lemma entry_ids playlists named :
  Forall2 entry_of playlists named ->
  List.map (JS.opt_get "id") named = List.map (JS.opt_get "id") playlists.
Proof.
  induction 1 as [|p e ps es [tracks ->] _ IH]; [reflexivity|].
  cbn [List.map]. now rewrite IH.
Qed.

(** C5.  In [getPlaylistsWithTracks], a failure while fetching the liked
    songs is swallowed: assembly goes on with the named playlists and the
    result holds their entries alone.  A failure while fetching the tracks
    of a named playlist is not: the exception leaves
    [getPlaylistsWithTracks] from the world in which it was thrown, before
    any request for the playlists that follow. *)
Theorem partial_failure_policy fuel w playlists w1 :
  getAllCurrentUserPlaylists fuel w = (Return playlists, w1) ->
  (forall e w2,
     getAllSavedTracks fuel w1 = (Throw e, w2) ->
     getPlaylistsWithTracks fuel w = named_loop fuel playlists [] w2 /\
     forall r w3,
       getPlaylistsWithTracks fuel w = (Return r, w3) ->
       Forall2 entry_of playlists r) /\
  (forall result w2 pre p post done wk e we,
     push_liked fuel [] w1 = (Return result, w2) ->
     playlists = pre ++ p :: post ->
     named_loop fuel pre result w2 = (Return done, wk) ->
     p <> JS.Undefined -> p <> JS.Null ->
     getAllPlaylistTracks fuel (JS.opt_get "id" p) wk = (Throw e, we) ->
     getPlaylistsWithTracks fuel w = (Throw e, we)).
Proof.
  intros Hpl. unfold getPlaylistsWithTracks.
  rewrite (bind_run _ _ _ _ _ Hpl). split.
  - intros e w2 Hliked.
    pose proof (push_liked_run fuel [] w1) as Hpush. rewrite Hliked in Hpush.
    rewrite (bind_run _ _ _ _ _ Hpush). split; [reflexivity|].
    intros r w3 Hr. apply named_loop_entries in Hr as (named & -> & Hnamed).
    exact Hnamed.
  - intros result w2 pre p post done wk e we Hpush -> Hpre Hn1 Hn2 Hthrow.
    rewrite (bind_run _ _ _ _ _ Hpush), named_loop_app.
    rewrite (bind_run _ _ _ _ _ Hpre). cbn [named_loop].
    rewrite (bind_run _ _ _ _ _ (prop_object "id" p wk Hn1 Hn2)).
    now rewrite (bind_throw _ _ _ _ _ Hthrow).
Qed.

Lemma partial_failure_policy_witness :
  let get := fun path => page_request "tok" (JS.Str path) in
  let wa := Scenario.library Scenario.broken
              (Scenario.one_page [Scenario.song "One"]) in
  let wb := Scenario.library (Scenario.one_page [Scenario.song "Liked"])
              Scenario.broken in
  (forall r w3,
     getPlaylistsWithTracks 3 wa = (Return r, w3) ->
     Forall2 entry_of [Scenario.mix; Scenario.road] r) /\
  getPlaylistsWithTracks 3 wb =
    (Throw (Error "Spotify API error 500: boom"),
     set_net_log [get "/me/playlists?limit=50"; get "/me/tracks?limit=50";
                  get "/playlists/p1/tracks?limit=100"] wb).
Proof.
  intros get wa wb. split.
  - destruct (partial_failure_policy 3 wa [Scenario.mix; Scenario.road]
                (set_net_log [get "/me/playlists?limit=50"] wa) eq_refl)
      as [H _].
    apply (H (Error "Spotify API error 500: boom")
             (set_net_log [get "/me/playlists?limit=50";
                           get "/me/tracks?limit=50"] wa)).
    reflexivity.
  - destruct (partial_failure_policy 3 wb [Scenario.mix; Scenario.road]
                (set_net_log [get "/me/playlists?limit=50"] wb) eq_refl)
      as [_ H].
    apply (H [liked_playlist [Sanitize.sanitizeTrack (Scenario.song "Liked")]]
             (set_net_log [get "/me/playlists?limit=50";
                           get "/me/tracks?limit=50"] wb)
             [] Scenario.mix [Scenario.road]
             [liked_playlist [Sanitize.sanitizeTrack (Scenario.song "Liked")]]
             (set_net_log [get "/me/playlists?limit=50";
                           get "/me/tracks?limit=50"] wb));
      try reflexivity; discriminate.
Defined.

(** C10.  When the liked-songs fetch succeeds, the result of
    [getPlaylistsWithTracks] starts with the virtual playlist, whose id is
    'liked-songs-virtual' and whose raw marker is
    [{type:'virtual', source:'liked_songs'}], followed by one entry per
    named playlist in the order in which the playlist endpoint listed
    them. *)
Theorem liked_songs_first fuel w playlists w1 liked w2 r w3 :
  getAllCurrentUserPlaylists fuel w = (Return playlists, w1) ->
  getAllSavedTracks fuel w1 = (Return liked, w2) ->
  getPlaylistsWithTracks fuel w = (Return r, w3) ->
  exists virtual named,
    r = virtual :: named /\
    JS.opt_get "id" virtual = JS.Str "liked-songs-virtual" /\
    JS.opt_get "raw" virtual =
      JS.Obj [("type", JS.Str "virtual"); ("source", JS.Str "liked_songs")] /\
    JS.opt_get "tracks" virtual = JS.Arr liked /\
    Forall2 entry_of playlists named /\
    List.map (JS.opt_get "id") named = List.map (JS.opt_get "id") playlists.
Proof.
  intros Hpl Hliked. unfold getPlaylistsWithTracks.
  rewrite (bind_run _ _ _ _ _ Hpl).
  pose proof (push_liked_run fuel [] w1) as Hpush. rewrite Hliked in Hpush.
  rewrite (bind_run _ _ _ _ _ Hpush). intros Hr.
  apply named_loop_entries in Hr as (named & -> & Hnamed).
  exists (liked_playlist liked), named.
  repeat split; try reflexivity; [assumption | now apply entry_ids].
Qed.

Lemma liked_songs_first_witness :
  let get := fun path => page_request "tok" (JS.Str path) in
  let w := Scenario.library (Scenario.one_page [Scenario.song "Liked"])
             (Scenario.one_page [Scenario.song "One"]) in
  let san := fun name => Sanitize.sanitizeTrack (Scenario.song name) in
  exists virtual named,
    [liked_playlist [san "Liked"];
     named_playlist Scenario.mix [san "One"];
     named_playlist Scenario.road [san "Two"]] = virtual :: named /\
    JS.opt_get "id" virtual = JS.Str "liked-songs-virtual" /\
    JS.opt_get "raw" virtual =
      JS.Obj [("type", JS.Str "virtual"); ("source", JS.Str "liked_songs")] /\
    JS.opt_get "tracks" virtual = JS.Arr [san "Liked"] /\
    Forall2 entry_of [Scenario.mix; Scenario.road] named /\
    List.map (JS.opt_get "id") named = [JS.Str "p1"; JS.Str "p2"].
Proof.
  intros get w san.
  apply (liked_songs_first 3 w [Scenario.mix; Scenario.road]
           (set_net_log [get "/me/playlists?limit=50"] w)
           [san "Liked"]
           (set_net_log [get "/me/playlists?limit=50";
                         get "/me/tracks?limit=50"] w)
           _
           (set_net_log [get "/me/playlists?limit=50";
                         get "/me/tracks?limit=50";
                         get "/playlists/p1/tracks?limit=100";
                         get "/playlists/p2/tracks?limit=100"] w));
    reflexivity.
Defined.

End FetcherFacts.

(** ** cacheDb.js *)

Section CacheFacts.
Import IndexedDb CacheDb.

Lemma record_truthy X user now : JS.truthy (make_record X user now) = true.
Proof. reflexivity. Qed.

Lemma putRecord_run record k w :
  idb_available w = true -> JS.opt_get "key" record = JS.Str k ->
  putRecord record w =
  (Return tt, set_idb_cache (<[k := record]> (idb_cache w)) w).
Proof.
  intros Hidb Hkey. unfold putRecord, bind, openDb. now rewrite Hidb, Hkey.
Qed.

Lemma getRecord_run w :
  idb_available w = true ->
  getRecord PLAYLISTS_KEY w =
  (Return (JS.or_else (get_result w PLAYLISTS_KEY) JS.Null), w).
Proof. intros Hidb. unfold getRecord, bind, openDb. now rewrite Hidb. Qed.

(** [savePlaylistsCache] with the primary store reachable: the record is
    in the primary store, and the backup entry holds its JSON text exactly
    when the fallback store accepted the write. *)
Lemma savePlaylistsCache_run X user w :
  idb_available w = true ->
  let record := make_record X user (clock w) in
  let text := JSON_stringify w (make_backup record) in
  let w1 := set_idb_cache (<[PLAYLISTS_KEY := record]> (idb_cache w)) w in
  savePlaylistsCache X user w =
  (Return (JS.Obj [("createdAt", JS.Number_ (clock w))]),
   if ls_fits BACKUP_KEY text w
   then set_localStorage (<[BACKUP_KEY := text]> (localStorage w)) w1
   else w1).
Proof.
  intros Hidb record text w1.
  unfold savePlaylistsCache. unfold bind at 1. unfold Date_now. cbv zeta.
  rewrite (bind_run _ _ _ _ _
             (putRecord_run (make_record X user (clock w)) PLAYLISTS_KEY w
                Hidb eq_refl)).
  fold record. fold w1.
  unfold bind, try_catch, stringify, setItem, ret.
  change (JSON_stringify w1 (make_backup record)) with text.
  change (ls_fits BACKUP_KEY text w1) with (ls_fits BACKUP_KEY text w).
  now destruct (ls_fits BACKUP_KEY text w).
Qed.

Lemma loadPlaylistsCache_primary w record :
  idb_available w = true ->
  idb_cache w !! PLAYLISTS_KEY = Some record -> JS.truthy record = true ->
  loadPlaylistsCache w = (Return (loaded_of_record record), w).
Proof.
  intros Hidb Hrec Htr. unfold loadPlaylistsCache.
  rewrite (bind_run _ _ _ _ _ (getRecord_run w Hidb)).
  unfold get_result. rewrite Hrec.
  unfold JS.or_else. now rewrite Htr, Htr.
Qed.

Lemma loadPlaylistsCache_fallback w raw parsed :
  idb_available w = true -> idb_cache w !! PLAYLISTS_KEY = None ->
  localStorage w !! BACKUP_KEY = Some raw -> raw <> "" ->
  JSON_parse w raw = Some parsed ->
  JS.truthy parsed = true -> JS.truthy (JS.opt_get "data" parsed) = true ->
  loadPlaylistsCache w = (Return (loaded_of_backup parsed), w).
Proof.
  intros Hidb Hrec Hraw Hne Hparse Ht1 Ht2. unfold loadPlaylistsCache.
  rewrite (bind_run _ _ _ _ _ (getRecord_run w Hidb)).
  unfold get_result. rewrite Hrec. cbn [JS.or_else JS.truthy].
  unfold bind, try_catch, getItem, parse, ret.
  rewrite Hraw. cbn [JS.opt_truthy JS.opt_ToString].
  apply str_truthy_ne in Hne as ->. now rewrite Hparse, Ht1, Ht2.
Qed.

(** Without a primary record and without a backup entry there is nothing
    to load. *)
Lemma loadPlaylistsCache_nothing w :
  idb_available w = true -> idb_cache w !! PLAYLISTS_KEY = None ->
  localStorage w !! BACKUP_KEY = None ->
  loadPlaylistsCache w = (Return JS.Null, w).
Proof.
  intros Hidb Hrec Hraw. unfold loadPlaylistsCache.
  rewrite (bind_run _ _ _ _ _ (getRecord_run w Hidb)).
  unfold get_result. rewrite Hrec. cbn [JS.or_else JS.truthy].
  unfold bind, try_catch, getItem, ret. now rewrite Hraw.
Qed.

(** With the primary store unreachable, [getRecord] rejects outside the
    [try] block and the load throws before it looks at the fallback. *)
Lemma loadPlaylistsCache_unreachable w :
  idb_available w = false ->
  loadPlaylistsCache w = (Throw (DOMException "UnknownError"), w).
Proof.
  intros Hidb. unfold loadPlaylistsCache, getRecord, openDb.
  unfold bind at 1. unfold bind at 1. now rewrite Hidb.
Qed.

(** The copy of cacheDb.js without the fallback tier loads nothing once
    the primary store has lost the record. *)
Lemma primary_only_load_without_record w :
  idb_available w = true -> idb_cache w !! PLAYLISTS_KEY = None ->
  CacheDbPrimary.loadPlaylistsCache w = (Return JS.Null, w).
Proof.
  intros Hidb Hrec. unfold CacheDbPrimary.loadPlaylistsCache.
  rewrite (bind_run _ _ _ _ _ (getRecord_run w Hidb)).
  unfold get_result. now rewrite Hrec.
Qed.

(** C4 (amended).  For every collection X, a save to the tiered cache
    with the primary store reachable succeeds and reports the clock
    reading taken during the call; a load right after it returns a record
    whose playlists are X and whose createdAt is that reading.  If the
    primary store later yields no record, and the save's best-effort write
    to the fallback store had been accepted (and JSON carries the backup),
    load returns the fallback copy, whose playlists are X. *)
Theorem tiered_cache_round_trip (X user : JS.value) (w : World) :
  idb_available w = true ->
  let saved := savePlaylistsCache X user w in
  let record := make_record X user (clock w) in
  let backup := make_backup record in
  saved.1 = Return (JS.Obj [("createdAt", JS.Number_ (clock w))]) /\
  (exists r,
     loadPlaylistsCache saved.2 = (Return r, saved.2) /\
     JS.opt_get "playlists" r = X /\
     JS.opt_get "createdAt" r = JS.Number_ (clock w)) /\
  (forall w2,
     ls_fits BACKUP_KEY (JSON_stringify w backup) w = true ->
     json_round_trips w w2 backup -> JS.truthy X = true ->
     idb_available w2 = true -> idb_cache w2 !! PLAYLISTS_KEY = None ->
     localStorage w2 !! BACKUP_KEY = localStorage saved.2 !! BACKUP_KEY ->
     exists r,
       loadPlaylistsCache w2 = (Return r, w2) /\
       JS.opt_get "playlists" r = X).
Proof.
  intros Hidb saved record backup. subst saved.
  rewrite (savePlaylistsCache_run X user w Hidb). cbv zeta. cbn [fst snd].
  fold record. fold backup.
  split; [reflexivity|]. split.
  - exists (loaded_of_record record). split; [|split; reflexivity].
    apply loadPlaylistsCache_primary.
    + now destruct (ls_fits BACKUP_KEY (JSON_stringify w backup) w).
    + destruct (ls_fits BACKUP_KEY (JSON_stringify w backup) w);
        apply lookup_insert_eq.
    + reflexivity.
  - intros w2 Hfits [Hne Hparse] HX Hidb2 Hrec2 Hls. rewrite Hfits in Hls.
    cbn [localStorage set_localStorage] in Hls. rewrite lookup_insert_eq in Hls.
    exists (loaded_of_backup backup). split; [|reflexivity].
    now apply (loadPlaylistsCache_fallback w2 (JSON_stringify w backup) backup).
Qed.

Lemma tiered_cache_round_trip_witness :
  let X := JS.Arr [JS.Obj [("id", JS.Str "p1"); ("name", JS.Str "Mix");
                           ("owner", JS.Str "Ann"); ("tracks", JS.Arr [])]] in
  let w := Scenario.world ∅ None (Scenario.app_url []) ∅ Scenario.offline in
  let saved := savePlaylistsCache X JS.Null w in
  let evicted := set_idb_cache ∅ saved.2 in
  saved.1 = Return (JS.Obj [("createdAt", JS.Number_ 1700000000000)]) /\
  (exists r, loadPlaylistsCache saved.2 = (Return r, saved.2) /\
             JS.opt_get "playlists" r = X /\
             JS.opt_get "createdAt" r = JS.Number_ 1700000000000) /\
  (exists r, loadPlaylistsCache evicted = (Return r, evicted) /\
             JS.opt_get "playlists" r = X).
Proof.
  intros X w saved evicted.
  destruct (tiered_cache_round_trip X JS.Null w eq_refl) as (H1 & H2 & H3).
  split; [exact H1|]. split; [exact H2|].
  apply (H3 evicted); try reflexivity.
  split; [discriminate|]. vm_compute. reflexivity.
Defined.

(** C4 as stated fails: the write to the fallback store is best effort.
    With the flat store full, the save succeeds on the primary store alone,
    and once the primary store has lost the record, load returns null. *)
Lemma fallback_copy_may_be_missing :
  ~ (forall X user w w2 created,
       idb_available w = true ->
       (savePlaylistsCache X user w).1 = Return created ->
       json_round_trips w w2 (make_backup (make_record X user (clock w))) ->
       JS.truthy X = true ->
       idb_available w2 = true -> idb_cache w2 !! PLAYLISTS_KEY = None ->
       localStorage w2 = localStorage (savePlaylistsCache X user w).2 ->
       exists r w3,
         loadPlaylistsCache w2 = (Return r, w3) /\
         JS.opt_get "playlists" r = X).
Proof.
  intros H.
  pose (X := JS.Arr [JS.Obj [("id", JS.Str "p1"); ("name", JS.Str "Mix");
                             ("owner", JS.Str "Ann"); ("tracks", JS.Arr [])]]).
  pose (w := Scenario.world ∅ (Some 64%nat) (Scenario.app_url []) ∅
               Scenario.offline).
  destruct (H X JS.Null w (set_idb_cache ∅ (savePlaylistsCache X JS.Null w).2)
              (JS.Obj [("createdAt", JS.Number_ 1700000000000)]))
    as (r & w3 & Hload & Hdata); try reflexivity.
  - split; [discriminate|]. vm_compute. reflexivity.
  - rewrite loadPlaylistsCache_nothing in Hload by reflexivity.
    injection Hload as <- _. discriminate Hdata.
Qed.

End CacheFacts.
